(** * A shallow embedding of the JunctionRelay collector runtime

    The development models the pieces of the repository that carry the
    runtime's behaviour:
    - [Js]: the JavaScript values the code manipulates (JSON values, [Error]
      objects, [undefined]), property reads, [String()], [JSON.stringify];
    - [Dispatcher]: [CollectorPlugin.handleLine] and [CollectorPlugin.dispatch]
      of the plugin SDK;
    - [Host]: the [PluginHost] supervisor, as a state machine over the events
      the Node.js event loop delivers to it;
    - [Discovery]: [discoverPlugins] over a model of the file system;
    - [Helpers]: [getDecimalPlaces];
    - [HostCtor] and [HostFs]: the options object of the [PluginHost]
      constructor, [findRpcHost] and the entry [start] resolves;
    - [DecimalPlaces]: [sanitizeDecimalPlaces]. *)

From Stdlib Require Import List String Ascii ZArith Bool Lia.
From Stdlib Require QArith Qround Permutation.
Import ListNotations.
Open Scope string_scope.
Set Warnings "-register-all".

Module Js.

(** JavaScript values.  Numbers are restricted to integers (the wire values
    of the runtime: ids, codes, counters).  [JErr name message props] is an
    instance of [Error] (or a subclass named [name]) carrying the enumerable
    own properties [props] (set with [Object.assign]). *)
Inductive jsval : Type :=
| JUndef
| JNull
| JBool (b : bool)
| JNum (z : Z)
| JBigInt (z : Z)
| JStr (s : string)
| JArr (xs : list jsval)
| JObj (fs : list (string * jsval))
| JErr (name msg : string) (props : list (string * jsval)).

(** Completion of an evaluation: a value, or a thrown value. *)
Inductive Res (A : Type) : Type :=
| Ok (a : A)
| Exn (e : jsval).
Arguments Ok {A} a.
Arguments Exn {A} e.

Definition bind {A B} (r : Res A) (k : A -> Res B) : Res B :=
  match r with Ok a => k a | Exn e => Exn e end.

Notation "x <- r ;; k" := (bind r (fun x => k))
  (at level 61, r at next level, right associativity).

Definition type_error (msg : string) : jsval := JErr "TypeError" msg [].

Fixpoint assoc (k : string) (fs : list (string * jsval)) : option jsval :=
  match fs with
  | [] => None
  | (k', v) :: fs' => if String.eqb k k' then Some v else assoc k fs'
  end.

(** Decimal rendering of an integer, as [Number.prototype.toString]. *)
Fixpoint digits_pos (fuel : nat) (n : Z) (acc : string) : string :=
  match fuel with
  | O => acc
  | S f =>
      let d := String (ascii_of_nat (48 + Z.to_nat (n mod 10))) acc in
      if Z.ltb n 10 then d else digits_pos f (n / 10) d
  end.

Definition z_to_dec (z : Z) : string :=
  if Z.ltb z 0 then "-" ++ digits_pos (Z.to_nat (Z.log2 (- z)) + 1) (- z) EmptyString
  else digits_pos (Z.to_nat (Z.log2 z) + 1) z EmptyString.

Fixpoint len (xs : list jsval) : Z :=
  match xs with [] => 0 | _ :: t => 1 + len t end.

(** Property read [v.k].  Reading from [undefined] or [null] throws. *)
Definition get (v : jsval) (k : string) : Res jsval :=
  match v with
  | JUndef => Exn (type_error
      ("Cannot read properties of undefined (reading '" ++ k ++ "')"))
  | JNull => Exn (type_error
      ("Cannot read properties of null (reading '" ++ k ++ "')"))
  | JObj fs => Ok (match assoc k fs with Some x => x | None => JUndef end)
  | JErr name msg ps =>
      Ok (match assoc k ps with
          | Some x => x
          | None =>
              if String.eqb k "message" then JStr msg
              else if String.eqb k "name" then JStr name else JUndef
          end)
  | JArr xs => Ok (if String.eqb k "length" then JNum (len xs) else JUndef)
  | JStr s =>
      Ok (if String.eqb k "length" then JNum (Z.of_nat (String.length s))
          else JUndef)
  | _ => Ok JUndef
  end.

(** [a ?? b] *)
Definition nullish (a b : jsval) : jsval :=
  match a with JUndef | JNull => b | _ => a end.

Definition truthy (v : jsval) : bool :=
  match v with
  | JUndef | JNull => false
  | JBool b => b
  | JNum z | JBigInt z => negb (Z.eqb z 0)
  | JStr s => negb (String.eqb s EmptyString)
  | _ => true
  end.

(** [String(v)] (also template-literal interpolation). *)
Fixpoint to_string (v : jsval) : string :=
  match v with
  | JUndef => "undefined"
  | JNull => "null"
  | JBool b => if b then "true" else "false"
  | JNum z | JBigInt z => z_to_dec z
  | JStr s => s
  | JArr xs =>
      (fix join (xs : list jsval) : string :=
         match xs with
         | [] => EmptyString
         | [x] => match x with JUndef | JNull => EmptyString | _ => to_string x end
         | x :: xs' =>
             match x with JUndef | JNull => EmptyString | _ => to_string x end
             ++ "," ++ join xs'
         end) xs
  | JObj _ => "[object Object]"
  | JErr name msg _ =>
      if String.eqb msg EmptyString then name else name ++ ": " ++ msg
  end.

(** [SameValueZero], as used by [Array.prototype.includes].  Compound values
    compare by reference; the values compared by the code never share one. *)
Definition same_value_zero (a b : jsval) : bool :=
  match a, b with
  | JUndef, JUndef | JNull, JNull => true
  | JBool x, JBool y => Bool.eqb x y
  | JNum x, JNum y | JBigInt x, JBigInt y => Z.eqb x y
  | JStr x, JStr y => String.eqb x y
  | _, _ => false
  end.

(** [JSON.stringify], string escaping. *)
Definition chr (n : nat) : string := String (ascii_of_nat n) EmptyString.
Definition dq : string := chr 34.
Definition bsl : string := chr 92.

Definition hex_digit (n : nat) : ascii :=
  if Nat.ltb n 10 then ascii_of_nat (48 + n) else ascii_of_nat (87 + n).

Fixpoint escape (s : string) : string :=
  match s with
  | EmptyString => EmptyString
  | String c s' =>
      let n := nat_of_ascii c in
      let e :=
        if Nat.eqb n 34 then bsl ++ dq
        else if Nat.eqb n 92 then bsl ++ bsl
        else if Nat.eqb n 8 then bsl ++ "b"
        else if Nat.eqb n 12 then bsl ++ "f"
        else if Nat.eqb n 10 then bsl ++ "n"
        else if Nat.eqb n 13 then bsl ++ "r"
        else if Nat.eqb n 9 then bsl ++ "t"
        else if Nat.ltb n 32 then
          bsl ++ "u00" ++ String (hex_digit (n / 16)) (String (hex_digit (n mod 16)) EmptyString)
        else String c EmptyString in
      e ++ escape s'
  end.

Definition quote (s : string) : string := dq ++ escape s ++ dq.

(** [JSON.stringify]: [Ok None] when the value is omitted ([undefined]),
    [Exn] when it throws (a [BigInt]).  An [Error]'s [message] and [name] are
    not enumerable, so only its own enumerable [props] are serialised. *)
Fixpoint ser (v : jsval) : Res (option string) :=
  let ser_members :=
    fix go (fs : list (string * jsval)) : Res (list string) :=
      match fs with
      | [] => Ok []
      | (k, x) :: fs' =>
          o <- ser x ;;
          rest <- go fs' ;;
          Ok (match o with
              | None => rest
              | Some s => (quote k ++ ":" ++ s) :: rest
              end)
      end in
  match v with
  | JUndef => Ok None
  | JNull => Ok (Some "null")
  | JBool b => Ok (Some (if b then "true" else "false"))
  | JNum z => Ok (Some (z_to_dec z))
  | JBigInt _ => Exn (type_error "Do not know how to serialize a BigInt")
  | JStr s => Ok (Some (quote s))
  | JArr xs =>
      items <- (fix go (xs : list jsval) : Res (list string) :=
                  match xs with
                  | [] => Ok []
                  | x :: xs' =>
                      o <- ser x ;;
                      rest <- go xs' ;;
                      Ok (match o with None => "null" | Some s => s end :: rest)
                  end) xs ;;
      Ok (Some ("[" ++ String.concat "," items ++ "]"))
  | JObj fs =>
      ms <- ser_members fs ;; Ok (Some ("{" ++ String.concat "," ms ++ "}"))
  | JErr _ _ ps =>
      ms <- ser_members ps ;; Ok (Some ("{" ++ String.concat "," ms ++ "}"))
  end.

Definition stringify (v : jsval) : Res string :=
  o <- ser v ;; Ok (match o with Some s => s | None => "undefined" end).

(** Wire text written with apostrophes standing for double quotes. *)
Fixpoint sq (s : string) : string :=
  match s with
  | EmptyString => EmptyString
  | String c s' =>
      String (if Ascii.eqb c "'"%char then ascii_of_nat 34 else c) (sq s')
  end.

End Js.

Module Dispatcher.
Import Js.

(** [JSON_RPC_ERRORS] of the protocol package. *)
Definition PARSE_ERROR : Z := -32700.
Definition INVALID_REQUEST : Z := -32600.
Definition METHOD_NOT_FOUND : Z := -32601.
Definition INVALID_PARAMS : Z := -32602.
Definition INTERNAL_ERROR : Z := -32603.
Definition SERVER_ERROR : Z := -32000.

(** [CollectorPluginConfig]: the metadata and an optional handler per method.
    A handler is asynchronous; the promise it returns settles to [Ok v] or is
    rejected with [Exn e] (a synchronous throw inside [dispatch] rejects the
    same way). *)
Record CollectorPluginConfig := {
  metadata : jsval;
  configure : option (jsval -> Res jsval);
  fetchSensors : option (jsval -> Res jsval);
  fetchSelectedSensors : option (jsval -> jsval -> Res jsval);
  testConnection : option (jsval -> Res jsval);
  startSession : option (jsval -> Res jsval);
  stopSession : option (jsval -> Res jsval)
}.

(** The mutable fields of a [CollectorPlugin]. *)
Record CollectorPlugin := {
  startTime : Z;
  currentConfig : jsval
}.

Definition newline : string := chr 10.

Definition set_currentConfig (st : CollectorPlugin) (c : jsval) : CollectorPlugin :=
  {| startTime := startTime st; currentConfig := c |}.

Definition success_true : jsval := JObj [("success", JBool true)].

(** [recv.includes(arg)] as it appears in the fallback: the method is read
    from the receiver before the argument is evaluated, and called after. *)
Definition includes_call (recv : jsval) (arg : Res jsval) : Res bool :=
  match recv with
  | JUndef | JNull => _ <- get recv "includes" ;; Exn JUndef
  | _ =>
      x <- arg ;;
      match recv with
      | JArr xs => Ok (existsb (same_value_zero x) xs)
      | JStr s =>
          Ok (match String.index 0 (to_string x) s with
              | Some _ => true | None => false end)
      | _ => Exn (type_error "selectedParams.sensorIds.includes is not a function")
      end
  end.

(** [recv.filter(pred)] *)
Definition filter_call (recv : jsval) (pred : jsval -> Res bool) : Res jsval :=
  match recv with
  | JUndef | JNull => _ <- get recv "filter" ;; Exn JUndef
  | JArr xs =>
      kept <- (fix go (xs : list jsval) : Res (list jsval) :=
                 match xs with
                 | [] => Ok []
                 | x :: xs' =>
                     b <- pred x ;;
                     rest <- go xs' ;;
                     Ok (if b then x :: rest else rest)
                 end) xs ;;
      Ok (JArr kept)
  | _ => Exn (type_error "all.sensors.filter is not a function")
  end.

(** [CollectorPlugin.dispatch].  [now] is [Date.now()]. *)
Definition dispatch (cfg : CollectorPluginConfig) (now : Z)
    (method params : jsval) (st : CollectorPlugin) : Res jsval * CollectorPlugin :=
  let m := match method with JStr s => s | _ => EmptyString end in
  let is_str := match method with JStr _ => true | _ => false end in
  if is_str && String.eqb m "getMetadata" then (Ok (metadata cfg), st)
  else if is_str && String.eqb m "configure" then
    let st' := set_currentConfig st params in
    match configure cfg with
    | Some h => (h params, st')
    | None => (Ok success_true, st')
    end
  else if is_str && String.eqb m "fetchSensors" then
    match fetchSensors cfg with
    | Some h => (h (currentConfig st), st)
    | None => (Ok (JObj [("sensors", JArr [])]), st)
    end
  else if is_str && String.eqb m "fetchSelectedSensors" then
    let selectedParams := params in
    match fetchSelectedSensors cfg, fetchSensors cfg with
    | Some h, _ => (h (currentConfig st) selectedParams, st)
    | None, Some h =>
        (all <- h (currentConfig st) ;;
         sensors <- get all "sensors" ;;
         kept <- filter_call sensors (fun s =>
                   ids <- get selectedParams "sensorIds" ;;
                   includes_call ids (get s "externalId")) ;;
         Ok (JObj [("sensors", kept)]), st)
    | None, None => (Ok (JObj [("sensors", JArr [])]), st)
    end
  else if is_str && String.eqb m "testConnection" then
    match testConnection cfg with
    | Some h => (h (currentConfig st), st)
    | None => (Ok success_true, st)
    end
  else if is_str && String.eqb m "startSession" then
    match startSession cfg with
    | Some h => (h (currentConfig st), st)
    | None => (Ok success_true, st)
    end
  else if is_str && String.eqb m "stopSession" then
    match stopSession cfg with
    | Some h => (h (currentConfig st), st)
    | None => (Ok success_true, st)
    end
  else if is_str && String.eqb m "healthCheck" then
    (Ok (JObj [("healthy", JBool true);
               ("uptime", JNum (Z.div (now - startTime st) 1000))]), st)
  else
    (Exn (JErr "Error" ("Method not found: " ++ to_string method)
                [("code", JNum METHOD_NOT_FOUND)]), st).

(** [CollectorPlugin.writeResponse]: the line written to standard output, or
    the exception [JSON.stringify] throws (nothing is written then). *)
Definition writeResponse (response : jsval) : Res string :=
  s <- stringify response ;; Ok (s ++ newline).

(** The [.catch] attached in [start]: an exception escaping [handleLine]. *)
Definition unhandled (e : jsval) : string :=
  "[plugin] Unhandled error: " ++ to_string e ++ newline.

(** The outcome of one line: the new state, the lines written to standard
    output and the lines written to standard error. *)
Record Outcome := {
  out_state : CollectorPlugin;
  out_stdout : list string;
  out_stderr : list string
}.

Definition emit (st : CollectorPlugin) (r : Res string) : Outcome :=
  match r with
  | Ok line => {| out_state := st; out_stdout := [line]; out_stderr := [] |}
  | Exn e => {| out_state := st; out_stdout := []; out_stderr := [unhandled e] |}
  end.

Definition parse_error_response : jsval :=
  JObj [("jsonrpc", JStr "2.0"); ("id", JNum 0);
        ("error", JObj [("code", JNum PARSE_ERROR); ("message", JStr "Parse error")])].

(** [CollectorPlugin.handleLine].  [parsed] is the outcome of [JSON.parse(line)]:
    [None] when it throws. *)
Definition handleLine (cfg : CollectorPluginConfig) (now : Z) (st : CollectorPlugin)
    (parsed : option jsval) : Outcome :=
  match parsed with
  | None => emit st (writeResponse parse_error_response)
  | Some request =>
      let '(r, st') :=
        match get request "method" with
        | Exn e => (Exn e, st)
        | Ok method =>
            match get request "params" with
            | Exn e => (Exn e, st)
            | Ok params => dispatch cfg now method (nullish params (JObj [])) st
            end
        end in
      let attempt :=
        result <- r ;;
        id <- get request "id" ;;
        writeResponse (JObj [("jsonrpc", JStr "2.0"); ("id", id); ("result", result)]) in
      match attempt with
      | Ok line => emit st' (Ok line)
      | Exn err =>
          emit st'
            (c <- get err "code" ;;
             let code := match c with JNum z => JNum z | _ => JNum SERVER_ERROR end in
             id <- get request "id" ;;
             message <- (match err with
                         | JErr _ _ _ => get err "message"
                         | _ => Ok (JStr (to_string err))
                         end) ;;
             writeResponse (JObj [("jsonrpc", JStr "2.0"); ("id", id);
                                  ("error", JObj [("code", code); ("message", message)])]))
      end
  end.

(** Lines handled one after the other; each handler settles before the next
    line's output is compared, and the state is threaded. *)
Fixpoint run_lines (cfg : CollectorPluginConfig) (now : Z) (st : CollectorPlugin)
    (lines : list (option jsval)) : list string * list string :=
  match lines with
  | [] => ([], [])
  | l :: ls =>
      let o := handleLine cfg now st l in
      let '(out, err) := run_lines cfg now (out_state o) ls in
      (app (out_stdout o) out, app (out_stderr o) err)
  end.

(** The [id] member of a serialised envelope: absent when [id] is
    [undefined]. *)
Definition id_member (o : option string) : string :=
  match o with Some s => sq "'id':" ++ s ++ "," | None => EmptyString end.

End Dispatcher.

Module Host.
Import Js.

(** [ConfigureParams] of the protocol package. *)
Record ConfigureParams := {
  collectorId : Z;
  url : option string;
  accessToken : option string;
  decimalPlaces : option Z
}.

(** The [params] the typed wrappers pass to [send]. *)
Inductive Params :=
| NoParams
| PConfigure (p : ConfigureParams)
| PSelected (sensorIds : list string).

(** A [JsonRpcRequest] written to the child's standard input. *)
Record JsonRpcRequest := {
  rq_method : string;
  rq_params : Params;
  rq_id : nat
}.

(** [PluginHostOptions] after the defaults of the constructor; the [has_*]
    fields say whether the optional callback was supplied. *)
Record PluginHostOptions := {
  timeout : Z;
  maxRestarts : nat;
  restartDelayMs : Z;
  has_onLog : bool;
  has_onExit : bool;
  has_onRestart : bool;
  has_onMaxRestartsExceeded : bool
}.

Definition default_options (timeout : option Z) (maxRestarts : option nat) : PluginHostOptions :=
  {| timeout := match timeout with Some t => t | None => 30000 end;
     maxRestarts := match maxRestarts with Some m => m | None => 3 end;
     restartDelayMs := 1000;
     has_onLog := true; has_onExit := true; has_onRestart := true;
     has_onMaxRestartsExceeded := true |}.

(** What the outside world observes: callbacks invoked, children spawned and
    signalled, lines written to a child, promises settled. *)
Inductive Effect :=
| OnLog (message : string)
| OnExit (code : option Z)
| OnRestart (attempt : nat)
| OnMaxRestartsExceeded
| Spawned (child : nat)
| Killed (child : nat)
| ToChild (child : nat) (rq : JsonRpcRequest)
| Resolved (id : nat) (result : jsval)
| Rejected (id : nat) (message : string)
| SendRejected (message : string)
| StartResolved
| StartRejected (message : string).

(** An entry of the [pending] map.  [pe_armed]: its timer is still set;
    [pe_replay]: it is the [configure] replayed after a restart, whose
    rejection is logged by the restart callback. *)
Record PendingEntry := {
  pe_id : nat;
  pe_method : string;
  pe_armed : bool;
  pe_replay : bool
}.

(** Who awaits the readiness of a spawned child. *)
Inductive Waiter := FromStart | FromRestart.

(** The fields of a [PluginHost].  Children are numbered in spawn order;
    [live]: spawned and not yet exited; [stdin_ended]: [stdin.end()] called;
    [closed]: its two line readers were closed by [stop()]; [waiting]: the
    readiness waits not yet settled; [restart_timers]: restart callbacks
    scheduled with [setTimeout] that have not run yet. *)
Record PluginHost := {
  options : PluginHostOptions;
  process : option nat;
  live : list nat;
  stdin_ended : list nat;
  closed : list nat;
  next_child : nat;
  nextId : nat;
  pending : list PendingEntry;
  logs : list string;
  restartCount : nat;
  lastConfigureParams : option ConfigureParams;
  stopped : bool;
  waiting : list (nat * Waiter);
  restart_timers : nat
}.

Definition init (o : PluginHostOptions) : PluginHost :=
  {| options := o; process := None; live := []; stdin_ended := []; closed := [];
     next_child := 0; nextId := 1; pending := []; logs := []; restartCount := 0;
     lastConfigureParams := None; stopped := false; waiting := [];
     restart_timers := 0 |}.

(** Events the Node.js event loop delivers to the supervisor. *)
Inductive Event :=
| Start
| Stop
| Configure (p : ConfigureParams)
| Send (method : string) (p : Params)
| StdoutLine (child : nat) (line : string) (parsed : option jsval)
| StderrLine (child : nat) (line : string)
| Exit (child : nat) (code : option Z)
| ReadyTimeout (child : nat)
| RestartTimer
| RequestTimeout (id : nat).

Definition nat_dec (n : nat) : string := z_to_dec (Z.of_nat n).

Definition code_str (code : option Z) : string :=
  match code with Some z => z_to_dec z | None => "null" end.

Definition isRunning (h : PluginHost) : bool :=
  match process h with Some _ => true | None => false end.

Definition getLogs (h : PluginHost) : list string := logs h.

Definition mem (c : nat) (l : list nat) : bool := existsb (Nat.eqb c) l.

(** [PluginHost.log] *)
Definition log (h : PluginHost) (message : string) : PluginHost * list Effect :=
  ({| options := options h; process := process h; live := live h;
      stdin_ended := stdin_ended h; closed := closed h; next_child := next_child h;
      nextId := nextId h; pending := pending h; logs := app (logs h) [message];
      restartCount := restartCount h; lastConfigureParams := lastConfigureParams h;
      stopped := stopped h; waiting := waiting h; restart_timers := restart_timers h |},
   if has_onLog (options h) then [OnLog message] else []).

Definition with_pending (h : PluginHost) (ps : list PendingEntry) : PluginHost :=
  {| options := options h; process := process h; live := live h;
     stdin_ended := stdin_ended h; closed := closed h; next_child := next_child h;
     nextId := nextId h; pending := ps; logs := logs h;
     restartCount := restartCount h; lastConfigureParams := lastConfigureParams h;
     stopped := stopped h; waiting := waiting h; restart_timers := restart_timers h |}.

(** Sequencing of state-and-effects steps. *)
Definition seq (r : PluginHost * list Effect) (k : PluginHost -> PluginHost * list Effect)
  : PluginHost * list Effect :=
  let '(h1, e1) := r in let '(h2, e2) := k h1 in (h2, app e1 e2).

Fixpoint log_all (h : PluginHost) (ms : list string) : PluginHost * list Effect :=
  match ms with
  | [] => (h, [])
  | m :: ms' => seq (log h m) (fun h' => log_all h' ms')
  end.

Definition restart_failed (message : string) : string :=
  "[host] Restart failed: Error: " ++ message.

Definition set_fields (h : PluginHost) (process' : option nat) (live' stdin_ended' closed' : list nat)
    (next_child' nextId' : nat) (pending' : list PendingEntry) (restartCount' : nat)
    (lastConfigureParams' : option ConfigureParams) (stopped' : bool)
    (waiting' : list (nat * Waiter)) (restart_timers' : nat) : PluginHost :=
  {| options := options h; process := process'; live := live'; stdin_ended := stdin_ended';
     closed := closed'; next_child := next_child'; nextId := nextId'; pending := pending';
     logs := logs h; restartCount := restartCount'; lastConfigureParams := lastConfigureParams';
     stopped := stopped'; waiting := waiting'; restart_timers := restart_timers' |}.

Definition with_waiting (h : PluginHost) (w : list (nat * Waiter)) : PluginHost :=
  set_fields h (process h) (live h) (stdin_ended h) (closed h) (next_child h) (nextId h)
    (pending h) (restartCount h) (lastConfigureParams h) (stopped h) w (restart_timers h).

Definition not_running : string := "Plugin process not running".

(** [PluginHost.send]; [replay] marks the [configure] sent by the restart
    callback, whose rejection that callback catches and logs. *)
Definition send (h : PluginHost) (method : string) (params : Params) (replay : bool)
  : PluginHost * list Effect :=
  match process h with
  | Some c =>
      if mem c (live h) && negb (mem c (stdin_ended h)) then
        let id := nextId h in
        (set_fields h (process h) (live h) (stdin_ended h) (closed h) (next_child h) (S id)
           (app (pending h) [{| pe_id := id; pe_method := method; pe_armed := true;
                                pe_replay := replay |}])
           (restartCount h) (lastConfigureParams h) (stopped h) (waiting h) (restart_timers h),
         [ToChild c {| rq_method := method; rq_params := params; rq_id := id |}])
      else if replay then log h (restart_failed not_running)
      else (h, [SendRejected not_running])
  | None => if replay then log h (restart_failed not_running) else (h, [SendRejected not_running])
  end.

(** [PluginHost.configure] *)
Definition configure (h : PluginHost) (p : ConfigureParams) (replay : bool)
  : PluginHost * list Effect :=
  let h1 := set_fields h (process h) (live h) (stdin_ended h) (closed h) (next_child h)
              (nextId h) (pending h) (restartCount h) (Some p) (stopped h) (waiting h)
              (restart_timers h) in
  send h1 "configure" (PConfigure p) replay.

(** [PluginHost.spawnProcess] up to its wait for readiness: the child is
    spawned, becomes [this.process], and [who] awaits its first stderr line. *)
Definition spawnProcess (h : PluginHost) (who : Waiter) : PluginHost * list Effect :=
  let c := next_child h in
  (set_fields h (Some c) (app (live h) [c]) (stdin_ended h) (closed h) (S c) (nextId h)
     (pending h) (restartCount h) (lastConfigureParams h) (stopped h)
     (app (waiting h) [(c, who)]) (restart_timers h),
   [Spawned c]).

(** [PluginHost.start] (its [package.json] read is taken to succeed). *)
Definition start (h : PluginHost) : PluginHost * list Effect :=
  spawnProcess
    (set_fields h (process h) (live h) (stdin_ended h) (closed h) (next_child h) (nextId h)
       (pending h) (restartCount h) (lastConfigureParams h) false (waiting h)
       (restart_timers h))
    FromStart.

(** [PluginHost.stop] *)
Definition stop (h : PluginHost) : PluginHost * list Effect :=
  let disarmed := map (fun e => {| pe_id := pe_id e; pe_method := pe_method e;
                                   pe_armed := false; pe_replay := pe_replay e |}) (pending h) in
  match process h with
  | Some c =>
      (set_fields h None (live h) (app (stdin_ended h) [c]) (app (closed h) [c])
         (next_child h) (nextId h) disarmed (restartCount h) (lastConfigureParams h) true
         (waiting h) (restart_timers h),
       [Killed c])
  | None =>
      (set_fields h None (live h) (stdin_ended h) (closed h) (next_child h) (nextId h)
         disarmed (restartCount h) (lastConfigureParams h) true (waiting h)
         (restart_timers h), [])
  end.

(** The [exit] listener of child [c]. *)
Definition on_exit (h : PluginHost) (c : nat) (code : option Z) : PluginHost * list Effect :=
  if negb (mem c (live h)) then (h, []) else
  let o := options h in
  let msg := "Plugin process exited with code " ++ code_str code in
  let rejections := map (fun e => Rejected (pe_id e) msg) (pending h) in
  let replay_logs := map (fun _ => restart_failed msg) (filter pe_replay (pending h)) in
  let h1 := set_fields h (process h) (filter (fun x => negb (Nat.eqb x c)) (live h))
              (stdin_ended h) (closed h) (next_child h) (nextId h) [] (restartCount h)
              (lastConfigureParams h) (stopped h) (waiting h) (restart_timers h) in
  let policy :=
    if negb (stopped h1) && Nat.ltb (restartCount h1) (maxRestarts o) then
      let n := S (restartCount h1) in
      let h2 := set_fields h1 (process h1) (live h1) (stdin_ended h1) (closed h1)
                  (next_child h1) (nextId h1) (pending h1) n (lastConfigureParams h1)
                  (stopped h1) (waiting h1) (S (restart_timers h1)) in
      seq (h2, if has_onRestart o then [OnRestart n] else [])
        (fun h3 => log h3 ("[host] Plugin exited unexpectedly (code " ++ code_str code ++
                           "), restarting (attempt " ++ nat_dec n ++ "/" ++
                           nat_dec (maxRestarts o) ++ ")..."))
    else if negb (stopped h1) && Nat.leb (maxRestarts o) (restartCount h1) then
      seq (h1, if has_onMaxRestartsExceeded o then [OnMaxRestartsExceeded] else [])
        (fun h3 => log h3 ("[host] Max restarts (" ++ nat_dec (maxRestarts o) ++ ") exceeded"))
    else (h1, []) in
  let '(h5, e5) := seq policy (fun h4 => log_all h4 replay_logs) in
  (h5, app (app (if has_onExit o then [OnExit code] else []) rejections) e5).

Definition remove_waiter (c : nat) (w : list (nat * Waiter)) : list (nat * Waiter) :=
  filter (fun x => negb (Nat.eqb (fst x) c)) w.

Definition find_waiter (c : nat) (w : list (nat * Waiter)) : option Waiter :=
  match find (fun x => Nat.eqb (fst x) c) w with Some (_, who) => Some who | None => None end.

(** The [line] listeners of the stderr reader of child [c]: [this.log(line)],
    then the [once] readiness listener, after which the awaiting code runs
    (for a restart: replay of the last configure parameters). *)
Definition on_stderr_line (h : PluginHost) (c : nat) (line : string) : PluginHost * list Effect :=
  if negb (Nat.ltb c (next_child h)) || mem c (closed h) then (h, []) else
  seq (log h line) (fun h1 =>
    match find_waiter c (waiting h1) with
    | None => (h1, [])
    | Some who =>
        let h2 := with_waiting h1 (remove_waiter c (waiting h1)) in
        match who with
        | FromStart => (h2, [StartResolved])
        | FromRestart =>
            match lastConfigureParams h2 with
            | Some p => configure h2 p true
            | None => (h2, [])
            end
        end
    end).

(** The readiness timer of child [c]. *)
Definition on_ready_timeout (h : PluginHost) (c : nat) : PluginHost * list Effect :=
  match find_waiter c (waiting h) with
  | None => (h, [])
  | Some who =>
      let h1 := with_waiting h (remove_waiter c (waiting h)) in
      match who with
      | FromStart => (h1, [StartRejected "Timeout waiting for plugin ready"])
      | FromRestart => log h1 (restart_failed "Timeout waiting for plugin ready")
      end
  end.

(** The restart callback scheduled by [on_exit]. *)
Definition on_restart_timer (h : PluginHost) : PluginHost * list Effect :=
  match restart_timers h with
  | O => (h, [])
  | S k =>
      spawnProcess
        (set_fields h (process h) (live h) (stdin_ended h) (closed h) (next_child h)
           (nextId h) (pending h) (restartCount h) (lastConfigureParams h) (stopped h)
           (waiting h) k)
        FromRestart
  end.

(** [this.pending.get(id)]: map keys are the numbers handed out by [send]. *)
Definition find_pending (id : jsval) (ps : list PendingEntry) : option PendingEntry :=
  find (fun e => match id with JNum z => Z.eqb z (Z.of_nat (pe_id e)) | _ => false end) ps.

Definition drop_pending (id : nat) (ps : list PendingEntry) : list PendingEntry :=
  filter (fun e => negb (Nat.eqb (pe_id e) id)) ps.

(** Settling a pending request by rejection. *)
Definition reject_entry (h : PluginHost) (e : PendingEntry) (message : string)
  : PluginHost * list Effect :=
  seq (h, [Rejected (pe_id e) message])
    (fun h1 => if pe_replay e then log h1 (restart_failed message) else (h1, [])).

(** The [line] listener of the stdout reader of child [c]. *)
Definition on_stdout_line (h : PluginHost) (c : nat) (line : string) (parsed : option jsval)
  : PluginHost * list Effect :=
  if negb (Nat.ltb c (next_child h)) || mem c (closed h) then (h, []) else
  let failed := "[host] Failed to parse plugin stdout: " ++ line in
  match parsed with
  | None => log h failed
  | Some response =>
      match get response "id" with
      | Exn _ => log h failed
      | Ok id =>
          match find_pending id (pending h) with
          | None => (h, [])
          | Some e =>
              let h1 := with_pending h (drop_pending (pe_id e) (pending h)) in
              match get response "error" with
              | Exn _ => log h1 failed
              | Ok err =>
                  if truthy err then
                    match get err "message" with
                    | Exn _ => log h1 failed
                    | Ok JUndef => reject_entry h1 e EmptyString
                    | Ok m => reject_entry h1 e (to_string m)
                    end
                  else
                    match get response "result" with
                    | Exn _ => log h1 failed
                    | Ok r => (h1, [Resolved (pe_id e) r])
                    end
              end
          end
      end
  end.

(** The timer armed by [send] for request [id]. *)
Definition on_request_timeout (h : PluginHost) (id : nat) : PluginHost * list Effect :=
  match find (fun e => Nat.eqb (pe_id e) id && pe_armed e) (pending h) with
  | None => (h, [])
  | Some e =>
      reject_entry (with_pending h (drop_pending id (pending h))) e
        ("Request timed out after " ++ z_to_dec (timeout (options h)) ++ "ms: " ++ pe_method e)
  end.

Definition step (h : PluginHost) (ev : Event) : PluginHost * list Effect :=
  match ev with
  | Start => start h
  | Stop => stop h
  | Configure p => configure h p false
  | Send m p => send h m p false
  | StdoutLine c line parsed => on_stdout_line h c line parsed
  | StderrLine c line => on_stderr_line h c line
  | Exit c code => on_exit h c code
  | ReadyTimeout c => on_ready_timeout h c
  | RestartTimer => on_restart_timer h
  | RequestTimeout id => on_request_timeout h id
  end.

Fixpoint run (h : PluginHost) (evs : list Event) : PluginHost * list Effect :=
  match evs with
  | [] => (h, [])
  | ev :: evs' => seq (step h ev) (fun h' => run h' evs')
  end.

End Host.

Module Discovery.
Import Js.

(** A file-system tree.  A readable file holds the outcome of [JSON.parse] on
    its text ([None]: the parse throws); a directory may refuse to be listed
    ([readdirSync] throws) while its entries can still be reached. *)
Inductive node :=
| File (parsed : option jsval)
| UnreadableFile
| Dir (listable : bool) (entries : list (string * node)).

Fixpoint entry_of (name : string) (es : list (string * node)) : option node :=
  match es with
  | [] => None
  | (n, x) :: es' => if String.eqb name n then Some x else entry_of name es'
  end.

(** Absolute paths as lists of segments, [path.join(dir, name)] as [dir ++ [name]]. *)
Fixpoint lookup (n : node) (path : list string) : option node :=
  match path with
  | [] => Some n
  | seg :: rest =>
      match n with
      | Dir _ es => match entry_of seg es with Some x => lookup x rest | None => None end
      | _ => None
      end
  end.

Definition existsSync (fs : node) (p : list string) : bool :=
  match lookup fs p with Some _ => true | None => false end.

(** [safeReaddir]: [statSync] failing, a non-directory, or [readdirSync]
    failing all give []. *)
Definition safeReaddir (fs : node) (p : list string) : list string :=
  match lookup fs p with
  | Some (Dir true es) => map fst es
  | _ => []
  end.

(** [path.basename] *)
Definition basename (p : list string) : string :=
  match rev p with x :: _ => x | [] => EmptyString end.

(** [DiscoveredPlugin] *)
Record DiscoveredPlugin := {
  name : jsval;
  version : jsval;
  path : list string;
  entry : jsval;
  manifest : jsval
}.

Definition res_option {A} (r : Res (option A)) : option A :=
  match r with Ok o => o | Exn _ => None end.

(** [tryLoadPlugin]; the [catch] turns every exception into [null]. *)
Definition tryLoadPlugin (fs : node) (dirPath : list string) : option DiscoveredPlugin :=
  let pkgPath := app dirPath ["package.json"] in
  if negb (existsSync fs pkgPath) then None else
  match lookup fs pkgPath with
  | Some (File (Some pkg)) =>
      res_option
        (jr <- get pkg "junctionrelay" ;;
         if negb (truthy jr) then Ok None else
         t <- get jr "type" ;;
         if negb (same_value_zero t (JStr "collector")) then Ok None else
         e <- get jr "entry" ;;
         m <- get pkg "main" ;;
         let entry := nullish (nullish e m) (JStr "index.ts") in
         n <- get pkg "name" ;;
         v <- get pkg "version" ;;
         Ok (Some {| name := nullish n (JStr (basename dirPath));
                     version := nullish v (JStr "0.0.0");
                     path := dirPath;
                     entry := entry;
                     manifest := jr |}))
  | _ => None
  end.

Definition load_all (fs : node) (dirs : list (list string)) : list DiscoveredPlugin :=
  flat_map (fun d => match tryLoadPlugin fs d with Some p => [p] | None => [] end) dirs.

(** [discoverPlugins]; [resolved] is [path.resolve(pluginsDir)]. *)
Definition discoverPlugins (fs : node) (resolved : list string) : list DiscoveredPlugin :=
  let direct :=
    if existsSync fs resolved
    then load_all fs (map (fun e => app resolved [e]) (safeReaddir fs resolved)) else [] in
  let scopedDir := app resolved ["node_modules"; "@junctionrelay"] in
  let scoped :=
    if existsSync fs scopedDir
    then load_all fs (map (fun e => app scopedDir [e])
                        (filter (String.prefix "plugin-") (safeReaddir fs scopedDir)))
    else [] in
  let nodeModulesDir := app resolved ["node_modules"] in
  let unscoped :=
    if existsSync fs nodeModulesDir
    then load_all fs (map (fun e => app nodeModulesDir [e])
                        (filter (String.prefix "junctionrelay-plugin-") (safeReaddir fs nodeModulesDir)))
    else [] in
  app direct (app scoped unscoped).

(** Values [JSON.parse] can produce. *)
Fixpoint is_json (v : jsval) : bool :=
  match v with
  | JUndef | JBigInt _ | JErr _ _ _ => false
  | JArr xs => (fix go (xs : list jsval) : bool :=
                  match xs with [] => true | x :: t => is_json x && go t end) xs
  | JObj fs => (fix go (fs : list (string * jsval)) : bool :=
                  match fs with [] => true | (_, x) :: t => is_json x && go t end) fs
  | _ => true
  end.

(** The discovery rules as §4.D of the spec words them, to be compared with
    [discoverPlugins]. *)
Module SpecRules.

Definition is_dir (fs : node) (p : list string) : bool :=
  match lookup fs p with Some (Dir _ _) => true | _ => false end.

(** The immediate subdirectories of [p] that can be listed (a listing error
    is skipped silently). *)
Definition subdirs (fs : node) (p : list string) : list string :=
  filter (fun n => is_dir fs (app p [n])) (safeReaddir fs p).

Definition field_or (k : string) (fs : list (string * jsval)) (default : jsval) : jsval :=
  match assoc k fs with
  | Some JNull | Some JUndef | None => default
  | Some v => v
  end.

(** A descriptor for a candidate whose package.json parses to an object with
    a [junctionrelay] object whose [type] is "collector". *)
Definition descriptor (fs : node) (dir : list string) : option DiscoveredPlugin :=
  match lookup fs (app dir ["package.json"]) with
  | Some (File (Some (JObj pkg))) =>
      match assoc "junctionrelay" pkg with
      | Some (JObj jr) =>
          match assoc "type" jr with
          | Some (JStr t) =>
              if String.eqb t "collector" then
                Some {| name := field_or "name" pkg (JStr (basename dir));
                        version := field_or "version" pkg (JStr "0.0.0");
                        path := dir;
                        entry := field_or "entry" jr (field_or "main" pkg (JStr "index.ts"));
                        manifest := JObj jr |}
              else None
          | _ => None
          end
      | _ => None
      end
  | _ => None
  end.

Definition candidates (fs : node) (root : list string) : list (list string) :=
  let scopedDir := app root ["node_modules"; "@junctionrelay"] in
  let nodeModulesDir := app root ["node_modules"] in
  app (map (fun n => app root [n]) (subdirs fs root))
   (app (map (fun n => app scopedDir [n]) (filter (String.prefix "plugin-") (subdirs fs scopedDir)))
        (map (fun n => app nodeModulesDir [n])
             (filter (String.prefix "junctionrelay-plugin-") (subdirs fs nodeModulesDir)))).

Definition discover (fs : node) (root : list string) : list DiscoveredPlugin :=
  if is_dir fs root
  then flat_map (fun d => match descriptor fs d with Some p => [p] | None => [] end)
                (candidates fs root)
  else [].

End SpecRules.

End Discovery.

Module Helpers.
Import Js.

(** Numbers as [parseFloat] yields them: [Fin neg m e] is (-1)^neg * m * 10^e.
    The development keeps the decimal value exact instead of rounding it to
    the nearest double.  For a decimal literal with at most 15 significant
    digits in the normal double range, the double nearest to it has that
    literal (trailing zeros dropped) as its shortest round-trip digits, so
    [Number::toString] below prints what JavaScript prints; inputs with more
    digits, or beyond the double range, are outside this model. *)
Inductive Number :=
| NaN
| Inf (neg : bool)
| Fin (neg : bool) (m : Z) (e : Z).

Definition is_nan (x : Number) : bool := match x with NaN => true | _ => false end.

(** StrWhiteSpaceChar restricted to ASCII: TAB, LF, VT, FF, CR and space. *)
Definition is_ws (c : ascii) : bool :=
  let n := nat_of_ascii c in (Nat.leb 9 n && Nat.leb n 13) || Nat.eqb n 32.

Fixpoint trim_start (l : list ascii) : list ascii :=
  match l with c :: t => if is_ws c then trim_start t else l | [] => [] end.

Definition is_digit (c : ascii) : bool :=
  let n := nat_of_ascii c in Nat.leb 48 n && Nat.leb n 57.

Definition digit_val (c : ascii) : Z := Z.of_nat (nat_of_ascii c - 48).

Fixpoint take_digits (l : list ascii) : list ascii * list ascii :=
  match l with
  | c :: t => if is_digit c then let (ds, r) := take_digits t in (c :: ds, r) else ([], l)
  | [] => ([], [])
  end.

Definition digits_value (ds : list ascii) : Z :=
  fold_left (fun acc c => acc * 10 + digit_val c)%Z ds 0%Z.

Definition take_sign (l : list ascii) : bool * list ascii :=
  match l with
  | c :: t => if Ascii.eqb c "-"%char then (true, t)
              else if Ascii.eqb c "+"%char then (false, t) else (false, l)
  | [] => (false, l)
  end.

(** The value of an ExponentPart at the head of [l]; 0 when there is none
    (an [e] with no digits after it is not part of the longest prefix). *)
Definition exponent_part (l : list ascii) : Z :=
  match l with
  | c :: t =>
      if Ascii.eqb c "e"%char || Ascii.eqb c "E"%char then
        let (neg, t') := take_sign t in
        match fst (take_digits t') with
        | [] => 0
        | ds => if neg then - digits_value ds else digits_value ds
        end
      else 0
  | [] => 0
  end.

(** [parseFloat]: the longest prefix of the trimmed string that is a
    StrDecimalLiteral, NaN when there is none. *)
Definition parseFloat (s : string) : Number :=
  let l := trim_start (list_ascii_of_string s) in
  let (neg, l1) := take_sign l in
  if String.prefix "Infinity" (string_of_list_ascii l1) then Inf neg else
  let (d1, r1) := take_digits l1 in
  let (d2, r2) := match r1 with
                  | c :: t => if Ascii.eqb c "."%char then take_digits t else ([], r1)
                  | [] => ([], [])
                  end in
  match app d1 d2 with
  | [] => NaN
  | ds => Fin neg (digits_value ds) (exponent_part r2 - Z.of_nat (List.length d2))
  end.

Fixpoint drop_zeros (l : list ascii) : list ascii :=
  match l with c :: t => if Ascii.eqb c "0"%char then drop_zeros t else l | [] => [] end.

(** [Number::toString(x)] (radix 10): with the significand digits [ds]
    ([k] of them) and [n] such that the value is 0.ds * 10^n, plain notation
    for -6 < n <= 21 and exponential notation otherwise. *)
Definition Number_toString (x : Number) : string :=
  match x with
  | NaN => "NaN"
  | Inf neg => if neg then "-Infinity" else "Infinity"
  | Fin neg m e =>
      if Z.eqb m 0 then "0" else
      let ds0 := list_ascii_of_string (z_to_dec m) in
      let r := drop_zeros (rev ds0) in
      let ds := rev r in
      let k := Z.of_nat (List.length ds) in
      let n := (e + Z.of_nat (Nat.sub (List.length ds0) (List.length r)) + k)%Z in
      let body :=
        if Z.leb k n && Z.leb n 21 then app ds (repeat "0"%char (Z.to_nat (n - k)))
        else if Z.ltb 0 n && Z.leb n 21 then
          app (firstn (Z.to_nat n) ds) ("."%char :: skipn (Z.to_nat n) ds)
        else if Z.ltb (-6) n && Z.leb n 0 then
          "0"%char :: "."%char :: app (repeat "0"%char (Z.to_nat (- n))) ds
        else
          let ex := (n - 1)%Z in
          let tail := "e"%char :: (if Z.ltb ex 0 then "-"%char else "+"%char)
                        :: list_ascii_of_string (z_to_dec (Z.abs ex)) in
          match ds with
          | [d] => d :: tail
          | d :: rest => d :: "."%char :: app rest tail
          | [] => tail
          end in
      string_of_list_ascii (if neg then "-"%char :: body else body)
  end.

(** [String.prototype.indexOf] for one character: -1 when absent. *)
Definition indexOf (s : string) (c : ascii) : Z :=
  (fix go (l : list ascii) (i : Z) : Z :=
     match l with
     | [] => (-1)%Z
     | x :: t => if Ascii.eqb x c then i else go t (i + 1)%Z
     end) (list_ascii_of_string s) 0%Z.

(** [getDecimalPlaces]; the only falsy string is the empty one. *)
Definition getDecimalPlaces (value : string) : Z :=
  if String.eqb value EmptyString then 0 else
  let num := parseFloat value in
  if is_nan num then 0 else
  let str := Number_toString num in
  let decimalIndex := indexOf str "."%char in
  if Z.eqb decimalIndex (-1) then 0 else
  (Z.of_nat (String.length str) - decimalIndex - 1)%Z.

(** The number of digits right after the decimal point of a numeral. *)
Definition fraction_digits (s : string) : nat :=
  let fix after (l : list ascii) : list ascii :=
    match l with [] => [] | c :: t => if Ascii.eqb c "."%char then t else after t end in
  List.length (fst (take_digits (after (list_ascii_of_string s)))).

End Helpers.

(** ** The [PluginHost] constructor's options object *)
Module HostCtor.
Import Js.

(** An assignment [obj[k] = v] on an object: an existing key keeps its place,
    a new key goes last. *)
Fixpoint set_prop (k : string) (v : jsval) (fs : list (string * jsval)) : list (string * jsval) :=
  match fs with
  | [] => [(k, v)]
  | (k', x) :: t => if String.eqb k k' then (k', v) :: t else (k', x) :: set_prop k v t
  end.

(** [{ ...dst, ...src }]: the own enumerable properties of [src] copied in order. *)
Definition spread (dst src : list (string * jsval)) : list (string * jsval) :=
  fold_left (fun acc kv => set_prop (fst kv) (snd kv) acc) src dst.

Definition prop (o : list (string * jsval)) (k : string) : jsval :=
  match assoc k o with Some v => v | None => JUndef end.

(** The object literal of the constructor:
    [{ timeout: options.timeout ?? 30000, maxRestarts: options.maxRestarts ?? 3,
       restartDelayMs: options.restartDelayMs ?? 1000, ...options }]. *)
Definition constructor_options (options : list (string * jsval)) : list (string * jsval) :=
  spread [("timeout", nullish (prop options "timeout") (JNum 30000));
          ("maxRestarts", nullish (prop options "maxRestarts") (JNum 3));
          ("restartDelayMs", nullish (prop options "restartDelayMs") (JNum 1000))]
         options.

End HostCtor.

(** ** [PluginHost.findRpcHost] and the entry [PluginHost.start] resolves *)
Module HostFs.
Import Js Discovery.

Definition rpcRelative : list string :=
  ["node_modules"; "@junctionrelay"; "collector-sdk"; "bin"; "rpc-host.mjs"].

(** The [while] loop of [findRpcHost], on [dir] given by its reversed
    segments: [path.dirname] drops the last segment, the root is [[]]. *)
Fixpoint walk_up (fs : node) (rdir : list string) : option (list string) :=
  match rdir with
  | [] => None
  | _ :: rparent =>
      let candidate := app (rev rdir) rpcRelative in
      if existsSync fs candidate then Some candidate else walk_up fs rparent
  end.

(** [findRpcHost]: [dir] starts at [pluginPath]. *)
Definition findRpcHost (fs : node) (pluginPath : list string) : option (list string) :=
  walk_up fs (rev pluginPath).

(** The entry of [start]: [pkg.junctionrelay?.entry ?? pkg.main ?? 'index.ts'].
    [None]: [readFileSync], [JSON.parse] or a property read throws, and
    [start] rejects. *)
Definition start_entry (fs : node) (pluginPath : list string) : option jsval :=
  match lookup fs (app pluginPath ["package.json"]) with
  | Some (File (Some pkg)) =>
      res_option
        (jr <- get pkg "junctionrelay" ;;
         e <- match jr with JUndef | JNull => Ok JUndef | _ => get jr "entry" end ;;
         m <- get pkg "main" ;;
         Ok (Some (nullish (nullish e m) (JStr "index.ts"))))
  | _ => None
  end.

End HostFs.

(** ** [sanitizeDecimalPlaces] *)
Module DecimalPlaces.
Import QArith_base Qround.

(** A JavaScript number: NaN, an infinity, or a finite value.  Every double
    is a rational, and the comparisons and [Math.floor] used below are exact
    on it ([-0] is identified with [0], which none of them tells apart). *)
Inductive Num := NNaN | NPosInf | NNegInf | NFin (q : Q).

Definition MAX_DECIMAL_PLACES : Z := 15.

(** [a < b] and [a > b] against a finite number; false on NaN. *)
Definition lt_fin (a : Num) (b : Q) : bool :=
  match a with
  | NNaN | NPosInf => false
  | NNegInf => true
  | NFin q => negb (Qle_bool b q)
  end.

Definition gt_fin (a : Num) (b : Q) : bool :=
  match a with
  | NNaN | NNegInf => false
  | NPosInf => true
  | NFin q => negb (Qle_bool q b)
  end.

(** [Math.floor] *)
Definition math_floor (a : Num) : Num :=
  match a with NFin q => NFin (inject_Z (Qfloor q)) | _ => a end.

(** [sanitizeDecimalPlaces] *)
Definition sanitizeDecimalPlaces (decimalPlaces : Num) : Num :=
  if lt_fin decimalPlaces 0 then NFin 0
  else if gt_fin decimalPlaces (inject_Z MAX_DECIMAL_PLACES) then NFin (inject_Z MAX_DECIMAL_PLACES)
  else math_floor decimalPlaces.

End DecimalPlaces.

(** ** Proofs *)

Lemma str_app_assoc : forall a b c : string, ((a ++ b) ++ c)%string = (a ++ (b ++ c))%string.
Proof. induction a as [|x a IH]; intros; simpl; [reflexivity | now rewrite IH]. Qed.

Module JsProofs.
Import Js.

(** Induction on JavaScript values, through arrays and object members. *)
Definition jsval_ind_deep (P : jsval -> Prop)
  (fU : P JUndef) (fN : P JNull) (fB : forall b, P (JBool b)) (fZ : forall z, P (JNum z))
  (fI : forall z, P (JBigInt z)) (fS : forall s, P (JStr s))
  (fA : forall xs, Forall P xs -> P (JArr xs))
  (fO : forall fs, Forall (fun kv => P (snd kv)) fs -> P (JObj fs))
  (fE : forall n m ps, Forall (fun kv => P (snd kv)) ps -> P (JErr n m ps)) :
  forall v, P v :=
  fix go (v : jsval) : P v :=
    let members := fix gm (fs : list (string * jsval)) : Forall (fun kv => P (snd kv)) fs :=
      match fs with
      | [] => Forall_nil _
      | (k, x) :: t => @Forall_cons _ (fun kv => P (snd kv)) (k, x) t (go x) (gm t)
      end in
    match v with
    | JUndef => fU | JNull => fN | JBool b => fB b | JNum z => fZ z
    | JBigInt z => fI z | JStr s => fS s
    | JArr xs => fA xs ((fix ga (xs : list jsval) : Forall P xs :=
                          match xs with
                          | [] => Forall_nil _
                          | x :: t => Forall_cons x (go x) (ga t)
                          end) xs)
    | JObj fs => fO fs (members fs)
    | JErr n m ps => fE n m ps (members ps)
    end.

Definition bigint_error : jsval := type_error "Do not know how to serialize a BigInt".

Lemma ser_members_exn : forall fs e,
  Forall (fun kv => forall e, ser (snd kv) = Exn e -> e = bigint_error) fs ->
  (fix go (fs : list (string * jsval)) : Res (list string) :=
      match fs with
      | [] => Ok []
      | (k, x) :: fs' =>
          o <- ser x ;;
          rest <- go fs' ;;
          Ok (match o with None => rest | Some s => (quote k ++ ":" ++ s) :: rest end)
      end) fs = Exn e -> e = bigint_error.
Proof.
  intros fs e H. induction H as [|[k x] fs Hx Hfs IH]; intros He; [discriminate|].
  cbn [snd] in Hx. destruct (ser x) as [o|e'] eqn:Ex; cbn [bind] in He.
  - destruct (_ fs) eqn:Er in He; cbn [bind] in He; [discriminate|].
    inversion He; subst. apply IH. exact Er.
  - inversion He; subst. apply (Hx _ eq_refl).
Qed.

(** [JSON.stringify] throws only the BigInt [TypeError]. *)
Lemma ser_exn : forall v e, ser v = Exn e -> e = bigint_error.
Proof.
  induction v as [| | | | | |xs Hxs|fs Hfs|n m ps Hps] using jsval_ind_deep;
    intros e H; cbn [ser] in H; try discriminate.
  - inversion H. reflexivity.
  - revert e H. induction Hxs as [|x xs Hx Hxs IH]; intros e H; [discriminate|].
    cbn [bind] in H |- *. destruct (ser x) as [o|e'] eqn:Ex; cbn [bind] in H.
    + destruct (_ xs) eqn:Er in H; cbn [bind] in H; [discriminate|].
      inversion H; subst. apply IH. rewrite Er. reflexivity.
    + inversion H; subst. apply (Hx _ eq_refl).
  - destruct (_ fs) eqn:Er in H; cbn [bind] in H; [discriminate|].
    inversion H; subst. apply (ser_members_exn fs), Er. exact Hfs.
  - destruct (_ ps) eqn:Er in H; cbn [bind] in H; [discriminate|].
    inversion H; subst. apply (ser_members_exn ps), Er. exact Hps.
Qed.

End JsProofs.

Module DispatcherProofs.
Import Js Dispatcher JsProofs.

(** A configuration with a [fetchSensors] handler returning the sensors [a]
    and [b] and no [fetchSelectedSensors] handler (scenario 4 of the spec). *)
Definition sensor (k : string) : jsval :=
  JObj [("uniqueSensorKey", JStr k); ("name", JStr k); ("value", JStr "1");
        ("unit", JStr "u"); ("category", JStr "Test"); ("decimalPlaces", JNum 0);
        ("sensorType", JStr "Numeric"); ("componentName", JStr "c");
        ("sensorTag", JStr k)].

Definition cfg_ab : CollectorPluginConfig :=
  {| metadata := JObj [("collectorName", JStr "test.plugin")];
     configure := None;
     fetchSensors := Some (fun _ => Ok (JObj [("sensors", JArr [sensor "a"; sensor "b"])]));
     fetchSelectedSensors := None;
     testConnection := None; startSession := None; stopSession := None |}.

Definition st0 : CollectorPlugin :=
  {| startTime := 0; currentConfig := JObj [("collectorId", JNum 0)] |}.

Definition request (method : string) (params : jsval) (id : Z) : jsval :=
  JObj [("jsonrpc", JStr "2.0"); ("method", JStr method);
        ("params", params); ("id", JNum id)].

(** C1 (code_bug): the automatic [fetchSelectedSensors] fallback filters on
    [externalId], which a sensor record does not have, so asking for the
    sensor ["a"] among the sensors ["a"] and ["b"] answers an empty list,
    while the sublist selected by [uniqueSensorKey] is the sensor ["a"]. *)
Theorem fetchSelected_fallback_filters_externalId :
  out_stdout (handleLine cfg_ab 0 st0
                (Some (request "fetchSelectedSensors"
                         (JObj [("sensorIds", JArr [JStr "a"])]) 4)))
  = [sq "{'jsonrpc':'2.0','id':4,'result':{'sensors':[]}}" ++ newline]
  /\ filter (fun s => match get s "uniqueSensorKey" with
                      | Ok k => existsb (same_value_zero k) [JStr "a"]
                      | Exn _ => false end)
            [sensor "a"; sensor "b"] = [sensor "a"].
Proof. split; vm_compute; reflexivity. Qed.

(** C2 (counterexample): an envelope without [jsonrpc] is served like any
    other: [getMetadata] without the protocol tag gets its result, not the
    invalid-request error [-32600]. *)
Lemma missing_jsonrpc_is_served :
  handleLine cfg_ab 0 st0
    (Some (JObj [("method", JStr "getMetadata"); ("params", JObj []); ("id", JNum 1)]))
  = {| out_state := st0;
       out_stdout :=
         [sq "{'jsonrpc':'2.0','id':1,'result':{'collectorName':'test.plugin'}}" ++ newline];
       out_stderr := [] |}.
Proof. vm_compute. reflexivity. Qed.

(** A thrown value whose [code] is not the invalid-request code [-32600]
    (reading [code] from [undefined] or [null] throws instead). *)
Definition not_invalid_request (e : jsval) : Prop :=
  get e "code" <> Ok (JNum INVALID_REQUEST).

(** A completion that, when it throws, throws such a value. *)
Definition quiet {A} (r : Res A) : Prop := forall e, r = Exn e -> not_invalid_request e.

Definition quiet_handler (h : option (jsval -> Res jsval)) : Prop :=
  match h with Some f => forall x, quiet (f x) | None => True end.

(** No handler of [cfg] rejects with a value whose [code] is [-32600]. *)
Definition handlers_quiet (cfg : CollectorPluginConfig) : Prop :=
  quiet_handler (configure cfg) /\ quiet_handler (fetchSensors cfg) /\
  match fetchSelectedSensors cfg with Some f => forall x y, quiet (f x y) | None => True end /\
  quiet_handler (testConnection cfg) /\ quiet_handler (startSession cfg) /\
  quiet_handler (stopSession cfg).

Lemma quiet_ok : forall A (a : A), quiet (Ok a).
Proof. intros A a e H. discriminate. Qed.

Lemma quiet_bind : forall A B (r : Res A) (k : A -> Res B),
  quiet r -> (forall a, quiet (k a)) -> quiet (bind r k).
Proof.
  intros A B [a|e0] k Hr Hk e H; cbn [bind] in H; [exact (Hk a e H)|].
  inversion H; subst. exact (Hr e eq_refl).
Qed.

Lemma quiet_type_error : forall A m, @quiet A (Exn (type_error m)).
Proof. intros A m e H. inversion H; subst. unfold not_invalid_request. simpl. discriminate. Qed.

Lemma quiet_undef : forall A, @quiet A (Exn JUndef).
Proof. intros A e H. inversion H; subst. unfold not_invalid_request. simpl. discriminate. Qed.

Lemma quiet_get : forall v k, quiet (get v k).
Proof. intros [] k; unfold get; first [apply quiet_ok | apply quiet_type_error]. Qed.

Ltac quiet_tac :=
  repeat first
    [ assumption | apply quiet_ok | apply quiet_get | apply quiet_type_error | apply quiet_undef
    | match goal with H : forall x, quiet _ |- _ => apply H end
    | match goal with H : forall x y, quiet _ |- _ => apply H end
    | apply quiet_bind
    | match goal with |- forall _, _ => intro end ].

Lemma quiet_includes : forall recv arg, quiet arg -> quiet (includes_call recv arg).
Proof.
  intros recv arg Ha. unfold includes_call.
  destruct recv; quiet_tac.
Qed.

Lemma quiet_filter : forall recv pred, (forall x, quiet (pred x)) -> quiet (filter_call recv pred).
Proof.
  intros recv pred Hp. unfold filter_call.
  destruct recv as [| | | | | |xs| |]; quiet_tac.
  induction xs as [|x xs IH]; quiet_tac.
Qed.

Lemma quiet_method_not_found : forall method,
  @quiet jsval (Exn (JErr "Error" ("Method not found: " ++ to_string method)
                       [("code", JNum METHOD_NOT_FOUND)])).
Proof.
  intros method e H. inversion H; subst. unfold not_invalid_request. simpl.
  unfold METHOD_NOT_FOUND, INVALID_REQUEST. discriminate.
Qed.

(** [dispatch] itself never throws [-32600]: it throws [-32601] for an
    unknown method, [TypeError]s from the fallback, or what a handler threw. *)
Lemma quiet_dispatch : forall cfg now method params st,
  handlers_quiet cfg -> quiet (fst (dispatch cfg now method params st)).
Proof.
  intros cfg now method params st (H1 & H2 & H3 & H4 & H5 & H6). unfold dispatch.
  destruct (configure cfg), (fetchSensors cfg), (fetchSelectedSensors cfg),
    (testConnection cfg), (startSession cfg), (stopSession cfg);
    cbn [quiet_handler] in *;
    repeat match goal with |- context [if ?b then _ else _] => destruct b end;
    cbn [fst];
    first [ apply quiet_method_not_found
          | quiet_tac; apply quiet_filter; quiet_tac; apply quiet_includes; quiet_tac
          | quiet_tac ].
Qed.

Lemma quiet_writeResponse : forall v, quiet (writeResponse v).
Proof.
  intros v e H. unfold writeResponse, stringify in H.
  destruct (ser v) as [o|e'] eqn:Es; cbn [bind] in H; [discriminate|].
  inversion H; subst. rewrite (ser_exn v e Es).
  unfold not_invalid_request, bigint_error. simpl. discriminate.
Qed.

(** Every line [handleLine] writes to standard output is a serialised result
    envelope or error envelope; an error envelope's [code] is not [-32600]
    when no handler throws it.  The [id] is the request's (absent when it is
    [undefined]), or 0 for a line that does not parse. *)
Lemma handleLine_codes : forall cfg now st parsed line,
  handlers_quiet cfg ->
  In line (out_stdout (handleLine cfg now st parsed)) ->
  exists idv,
    match parsed with Some request => get request "id" = Ok idv | None => idv = JNum 0 end /\
    ((exists result,
        writeResponse (JObj [("jsonrpc", JStr "2.0"); ("id", idv); ("result", result)]) = Ok line) \/
     (exists code message, code <> INVALID_REQUEST /\
        writeResponse (JObj [("jsonrpc", JStr "2.0"); ("id", idv);
           ("error", JObj [("code", JNum code); ("message", message)])]) = Ok line)).
Proof.
  intros cfg now st parsed line Hq Hin.
  destruct parsed as [request|].
  2: { exists (JNum 0). split; [reflexivity|]. right. exists PARSE_ERROR, (JStr "Parse error").
       split; [unfold PARSE_ERROR, INVALID_REQUEST; discriminate|].
       unfold handleLine in Hin.
       destruct (writeResponse parse_error_response) as [l|] eqn:E; cbn [emit out_stdout] in Hin;
         [|destruct Hin].
       destruct Hin as [<-|[]]. exact E. }
  unfold handleLine in Hin.
  assert (Hr : forall r st', (match get request "method" with
                 | Exn e => (Exn e, st)
                 | Ok method =>
                     match get request "params" with
                     | Exn e => (Exn e, st)
                     | Ok params => dispatch cfg now method (nullish params (JObj [])) st
                     end
                 end) = (r, st') -> quiet r).
  { intros r st' E.
    destruct (get request "method") as [method|e] eqn:Hm.
    - destruct (get request "params") as [params|e] eqn:Hp.
      + pose proof (quiet_dispatch cfg now method (nullish params (JObj [])) st Hq) as Hd.
        rewrite E in Hd. exact Hd.
      + inversion E; subst. rewrite <- Hp. apply quiet_get.
    - inversion E; subst. rewrite <- Hm. apply quiet_get. }
  destruct (match get request "method" with
            | Exn e => (Exn e, st)
            | Ok method =>
                match get request "params" with
                | Exn e => (Exn e, st)
                | Ok params => dispatch cfg now method (nullish params (JObj [])) st
                end
            end) as [r st'].
  specialize (Hr r st' eq_refl).
  cbv beta iota zeta in Hin.
  match type of Hin with
  | context [match ?A with Ok _ => _ | Exn _ => _ end] => destruct A as [l|err] eqn:Ea
  end.
  - cbn [emit out_stdout] in Hin. destruct Hin as [<-|[]].
    destruct r as [result|e]; cbn [bind] in Ea; [|discriminate].
    destruct (get request "id") as [idv|e] eqn:Hi; cbn [bind] in Ea; [|discriminate].
    exists idv. split; [reflexivity|]. left. exists result. exact Ea.
  - assert (Hn : not_invalid_request err).
    { refine (quiet_bind _ _ r _ Hr _ err Ea). intros result.
      apply quiet_bind; [apply quiet_get|]. intros id. apply quiet_writeResponse. }
    destruct (get err "code") as [c|e] eqn:Hc; cbn [bind] in Hin;
      [|cbn [emit out_stdout] in Hin; destruct Hin].
    assert (Hcode : exists code, code <> INVALID_REQUEST /\
              match c with JNum z => JNum z | _ => JNum SERVER_ERROR end = JNum code).
    { destruct c as [| | |z| | | | |];
        try (exists SERVER_ERROR; split; [unfold SERVER_ERROR, INVALID_REQUEST; discriminate|reflexivity]).
      exists z. split; [|reflexivity]. intros E. subst z. exact (Hn Hc). }
    destruct Hcode as (code & Hne & Ec). rewrite Ec in Hin.
    destruct (get request "id") as [idv|e] eqn:Hi; cbn [bind] in Hin;
      [|cbn [emit out_stdout] in Hin; destruct Hin].
    destruct (match err with JErr _ _ _ => get err "message" | _ => Ok (JStr (to_string err)) end)
      as [message|e]; cbn [bind] in Hin; [|cbn [emit out_stdout] in Hin; destruct Hin].
    match type of Hin with
    | context [emit st' ?W] => destruct W as [l|e] eqn:Ew
    end; cbn [emit out_stdout] in Hin; [|destruct Hin].
    destruct Hin as [<-|[]].
    exists idv. split; [reflexivity|]. right. exists code, message. split; [exact Hne|exact Ew].
Qed.

(** C2 (amended): the dispatcher does not validate envelopes and never emits
    [-32600] on its own.  Its answer to a parsed object depends only on the
    object's [method], [params] and [id] ([jsonrpc] is never read); an object
    without [method] is answered with one [-32601] error line "Method not
    found: undefined" carrying the object's [id] (no [id] member when [id]
    is absent); an object with a [method] but no [id] is served all the
    same, its answer having no [id] member ([getMetadata] gets
    [{"jsonrpc":"2.0","result":...}]); and every line written is a result
    envelope or an error envelope whose [code] is not [-32600] unless a
    handler threw a value with that [code]. *)
Theorem handleLine_no_envelope_validation :
  forall cfg now st,
    (forall fs1 fs2,
       assoc "method" fs1 = assoc "method" fs2 ->
       assoc "params" fs1 = assoc "params" fs2 ->
       assoc "id" fs1 = assoc "id" fs2 ->
       handleLine cfg now st (Some (JObj fs1)) = handleLine cfg now st (Some (JObj fs2))) /\
    (forall fs o,
       assoc "method" fs = None ->
       ser (match assoc "id" fs with Some v => v | None => JUndef end) = Ok o ->
       handleLine cfg now st (Some (JObj fs)) =
         {| out_state := st;
            out_stdout := [sq "{'jsonrpc':'2.0'," ++ id_member o ++
               sq "'error':{'code':-32601,'message':'Method not found: undefined'}}" ++ newline];
            out_stderr := [] |}) /\
    (forall fs s,
       assoc "method" fs = Some (JStr "getMetadata") ->
       assoc "id" fs = None ->
       ser (metadata cfg) = Ok (Some s) ->
       handleLine cfg now st (Some (JObj fs)) =
         {| out_state := st;
            out_stdout := [sq "{'jsonrpc':'2.0','result':" ++ s ++ "}" ++ newline];
            out_stderr := [] |}) /\
    (handlers_quiet cfg ->
     forall parsed line,
       In line (out_stdout (handleLine cfg now st parsed)) ->
       exists idv,
         match parsed with Some request => get request "id" = Ok idv | None => idv = JNum 0 end /\
         ((exists result,
             writeResponse (JObj [("jsonrpc", JStr "2.0"); ("id", idv); ("result", result)]) = Ok line) \/
          (exists code message, code <> INVALID_REQUEST /\
             writeResponse (JObj [("jsonrpc", JStr "2.0"); ("id", idv);
                ("error", JObj [("code", JNum code); ("message", message)])]) = Ok line))).
Proof.
  intros cfg now st; split; [|split; [|split]].
  - intros fs1 fs2 Hm Hp Hi. unfold handleLine, get. rewrite Hm, Hp, Hi. reflexivity.
  - intros fs o Hm Hs. unfold handleLine. cbn [get]. rewrite Hm.
    destruct (assoc "params" fs); cbn;
      revert Hs; generalize (match assoc "id" fs with Some x => x | None => JUndef end);
      intros idv Hs; unfold writeResponse, stringify; simpl; rewrite Hs;
      destruct o; simpl; rewrite ?str_app_assoc; reflexivity.
  - intros fs s Hm Hi Hs. unfold handleLine. cbn [get]. rewrite Hm, Hi.
    destruct (assoc "params" fs); cbn; unfold writeResponse, stringify; simpl; rewrite Hs;
      simpl; rewrite ?str_app_assoc; reflexivity.
  - intros Hq parsed line Hin. exact (handleLine_codes cfg now st parsed line Hq Hin).
Qed.

Lemma cfg_ab_quiet : handlers_quiet cfg_ab.
Proof. unfold handlers_quiet; cbn; repeat split; intros; apply quiet_ok. Qed.

Lemma handleLine_no_envelope_validation_witness :
  handleLine cfg_ab 0 st0 (Some (JObj [("jsonrpc", JStr "1.0"); ("method", JStr "getMetadata"); ("id", JNum 1)]))
  = handleLine cfg_ab 0 st0 (Some (JObj [("method", JStr "getMetadata"); ("id", JNum 1)]))
  /\ handleLine cfg_ab 0 st0 (Some (JObj [("params", JObj []); ("id", JNum 9)])) =
     {| out_state := st0;
        out_stdout := [sq "{'jsonrpc':'2.0'," ++ id_member (Some "9") ++
           sq "'error':{'code':-32601,'message':'Method not found: undefined'}}" ++ newline];
        out_stderr := [] |}
  /\ handleLine cfg_ab 0 st0 (Some (JObj [("method", JStr "getMetadata")])) =
     {| out_state := st0;
        out_stdout := [sq "{'jsonrpc':'2.0','result':" ++ sq "{'collectorName':'test.plugin'}" ++ "}"
                       ++ newline];
        out_stderr := [] |}
  /\ exists idv,
       get (JObj [("method", JStr "getMetadata")]) "id" = Ok idv /\
       ((exists result,
           writeResponse (JObj [("jsonrpc", JStr "2.0"); ("id", idv); ("result", result)])
           = Ok (sq "{'jsonrpc':'2.0','result':{'collectorName':'test.plugin'}}" ++ newline)) \/
        (exists code message, code <> INVALID_REQUEST /\
           writeResponse (JObj [("jsonrpc", JStr "2.0"); ("id", idv);
              ("error", JObj [("code", JNum code); ("message", message)])])
           = Ok (sq "{'jsonrpc':'2.0','result':{'collectorName':'test.plugin'}}" ++ newline))).
Proof.
  split; [|split; [|split]].
  - apply (proj1 (handleLine_no_envelope_validation cfg_ab 0 st0)); reflexivity.
  - apply (proj1 (proj2 (handleLine_no_envelope_validation cfg_ab 0 st0))); reflexivity.
  - apply (proj1 (proj2 (proj2 (handleLine_no_envelope_validation cfg_ab 0 st0))));
      [reflexivity|reflexivity|vm_compute; reflexivity].
  - apply (proj2 (proj2 (proj2 (handleLine_no_envelope_validation cfg_ab 0 st0))) cfg_ab_quiet
             (Some (JObj [("method", JStr "getMetadata")]))).
    vm_compute. left. reflexivity.
Defined.

(** A configuration whose [fetchSensors] handler rejects with [null]. *)
Definition cfg_reject_null : CollectorPluginConfig :=
  {| metadata := JObj [("collectorName", JStr "test.plugin")];
     configure := None;
     fetchSensors := Some (fun _ => Exn JNull);
     fetchSelectedSensors := None;
     testConnection := None; startSession := None; stopSession := None |}.

(** C3 (code_bug): when the routed handler throws [null] (or [undefined]),
    the [catch] of [handleLine] reads [err.code] on it and throws again, so
    no response line is written for the valid [fetchSensors] request with
    id 1; the error only reaches standard error through the [.catch] of
    [start]. *)
Theorem handler_throwing_null_gets_no_response :
  handleLine cfg_reject_null 0 st0 (Some (request "fetchSensors" (JObj []) 1))
  = {| out_state := st0;
       out_stdout := [];
       out_stderr :=
         ["[plugin] Unhandled error: TypeError: Cannot read properties of null (reading 'code')"
          ++ newline] |}.
Proof. vm_compute. reflexivity. Qed.

(** C4: a line that does not parse as JSON is answered with exactly one line,
    the parse-error envelope with id 0, code -32700 and message "Parse error",
    nothing goes to standard error, the state is unchanged, and the following
    lines are handled as if the bad line had not been there. *)
Theorem handleLine_parse_error :
  forall cfg now st rest,
    handleLine cfg now st None =
      {| out_state := st;
         out_stdout :=
           [sq "{'jsonrpc':'2.0','id':0,'error':{'code':-32700,'message':'Parse error'}}"
            ++ newline];
         out_stderr := [] |}
    /\ run_lines cfg now st (None :: rest) =
       let '(out, err) := run_lines cfg now st rest in
       ((sq "{'jsonrpc':'2.0','id':0,'error':{'code':-32700,'message':'Parse error'}}"
         ++ newline) :: out, err).
Proof.
  intros cfg now st rest.
  assert (H : handleLine cfg now st None =
      {| out_state := st;
         out_stdout :=
           [sq "{'jsonrpc':'2.0','id':0,'error':{'code':-32700,'message':'Parse error'}}"
            ++ newline];
         out_stderr := [] |}) by reflexivity.
  split; [exact H|].
  simpl run_lines. destruct (run_lines cfg now st rest). reflexivity.
Qed.

End DispatcherProofs.

Module HostProofs.
Import Js Host.

Definition opts : PluginHostOptions := default_options None None.

Definition cfg42 : ConfigureParams :=
  {| collectorId := 42; url := None; accessToken := None; decimalPlaces := None |}.

Definition is_to_child (c : nat) (e : Effect) : bool :=
  match e with ToChild c' _ => Nat.eqb c c' | _ => false end.

Lemma log_fields : forall h m,
  process (fst (log h m)) = process h /\ live (fst (log h m)) = live h /\
  stdin_ended (fst (log h m)) = stdin_ended h /\ closed (fst (log h m)) = closed h /\
  waiting (fst (log h m)) = waiting h /\ nextId (fst (log h m)) = nextId h /\
  lastConfigureParams (fst (log h m)) = lastConfigureParams h /\
  logs (fst (log h m)) = app (logs h) [m] /\
  snd (log h m) = (if has_onLog (options h) then [OnLog m] else []).
Proof. intros; repeat split; reflexivity. Qed.

Lemma remove_waiter_gone : forall c w, find_waiter c (remove_waiter c w) = None.
Proof.
  intros c w; induction w as [|[c' who] w IH]; [reflexivity|].
  unfold remove_waiter, find_waiter in *; simpl.
  destruct (Nat.eqb c' c) eqn:E; simpl; rewrite ?E; exact IH.
Qed.

Definition after_crash : PluginHost :=
  fst (run (init opts) [Start; StderrLine 0 "[plugin] ready"; Configure cfg42;
                        Exit 0 (Some 1%Z); RestartTimer]).

(** C6 (code_bug): [stop()] called during the restart delay does not inhibit
    the respawn.  The exit of child 0 schedules a restart; [stop()] then sets
    the stopped flag; the restart callback does not look at it and spawns
    child 1, which becomes the supervisor's running process although the
    supervisor was stopped. *)
Theorem stop_during_restart_delay_still_respawns :
  snd (run (init opts) [Start; StderrLine 0 "[plugin] ready"; Exit 0 (Some 1%Z); Stop; RestartTimer])
  = [Spawned 0; OnLog "[plugin] ready"; StartResolved; OnExit (Some 1%Z); OnRestart 1;
     OnLog "[host] Plugin exited unexpectedly (code 1), restarting (attempt 1/3)...";
     Killed 0; Spawned 1]
  /\ stopped (fst (run (init opts) [Start; StderrLine 0 "[plugin] ready"; Exit 0 (Some 1%Z);
                                     Stop; RestartTimer])) = true
  /\ isRunning (fst (run (init opts) [Start; StderrLine 0 "[plugin] ready"; Exit 0 (Some 1%Z);
                                       Stop; RestartTimer])) = true.
Proof. vm_compute. repeat split. Qed.

(** C7 (counterexample): a stderr line "hello" is delivered to [onLog] and
    stored in the log exactly as it came, with no tag put in front of it. *)
Lemma stderr_line_logged_untagged :
  getLogs (fst (run (init opts) [Start; StderrLine 0 "hello"])) = ["hello"] /\
  snd (run (init opts) [Start; StderrLine 0 "hello"]) = [Spawned 0; OnLog "hello"; StartResolved] /\
  String.get 0 "hello" <> Some "["%char.
Proof. vm_compute. split; [reflexivity|split; [reflexivity|discriminate]]. Qed.

Lemma configure_replay_logs : forall h p,
  exists extra, logs (fst (configure h p true)) = app (logs h) extra
                /\ waiting (fst (configure h p true)) = waiting h.
Proof.
  intros h p. unfold configure, send. simpl.
  destruct (process h) as [c|].
  - destruct (mem c (live h) && negb (mem c (stdin_ended h))).
    + exists []. simpl. now rewrite app_nil_r.
    + eexists. split; reflexivity.
  - eexists. split; reflexivity.
Qed.

(** C7 (amended): every line read from the stderr of a child whose reader is
    open is appended unchanged (no tag added) to the in-memory log, an
    unbounded list whose copy [getLogs()] returns, and delivered unchanged as
    the first effect of the step to [onLog]; only when it is the child's
    first line (its readiness) can the replay that follows append log lines
    of its own after it; after it, no readiness wait of that child remains,
    so later lines are only logged. *)
Theorem stderr_line_logged :
  forall h c line,
    c < next_child h -> mem c (closed h) = false ->
    (exists extra,
        getLogs (fst (step h (StderrLine c line))) = app (getLogs h) (line :: extra)
        /\ (find_waiter c (waiting h) = None -> extra = []))
    /\ (has_onLog (options h) = true -> hd_error (snd (step h (StderrLine c line))) = Some (OnLog line))
    /\ find_waiter c (waiting (fst (step h (StderrLine c line)))) = None.
Proof.
  intros h c line Hn Hc. simpl step. unfold on_stderr_line.
  apply Nat.ltb_lt in Hn. rewrite Hn, Hc. simpl.
  destruct (find_waiter c (waiting h)) as [who|] eqn:Hw.
  - destruct who.
    + split; [|split].
      * exists []. split; [|discriminate]. simpl. rewrite <- ?app_assoc. reflexivity.
      * intros Ho. rewrite Ho. reflexivity.
      * apply remove_waiter_gone.
    + destruct (lastConfigureParams h) as [p|] eqn:Hp.
      * match goal with
        | |- context [configure ?x ?q true] =>
            destruct (configure_replay_logs x q) as [extra [Hx Hwt]];
            destruct (configure x q true) as [h3 e3]
        end.
        simpl in Hx, Hwt |- *.
        split; [|split].
        -- exists extra. split; [|discriminate]. unfold getLogs. rewrite Hx.
           rewrite <- ?app_assoc. reflexivity.
        -- intros Ho. rewrite Ho. reflexivity.
        -- rewrite Hwt. apply remove_waiter_gone.
      * split; [|split].
        -- exists []. split; [|discriminate]. simpl. rewrite <- ?app_assoc. reflexivity.
        -- intros Ho. rewrite Ho. reflexivity.
        -- apply remove_waiter_gone.
  - split; [|split].
    + exists []. split; [|intros _; reflexivity]. simpl. reflexivity.
    + intros Ho. unfold log. simpl. rewrite Ho. reflexivity.
    + simpl. exact Hw.
Qed.

Lemma stderr_line_logged_witness :
  (exists extra,
      getLogs (fst (step after_crash (StderrLine 1 "[plugin] ready")))
      = app (getLogs after_crash) ("[plugin] ready" :: extra)
      /\ (find_waiter 1 (waiting after_crash) = None -> extra = []))
  /\ (has_onLog (options after_crash) = true ->
      hd_error (snd (step after_crash (StderrLine 1 "[plugin] ready")))
      = Some (OnLog "[plugin] ready"))
  /\ find_waiter 1 (waiting (fst (step after_crash (StderrLine 1 "[plugin] ready")))) = None.
Proof.
  apply (stderr_line_logged after_crash 1 "[plugin] ready");
    vm_compute; first [reflexivity | repeat constructor].
Defined.

(** C10: a parsed stdout object whose [id] matches no pending request changes
    nothing: the state is the same and there is no effect (nothing resolved,
    rejected, logged or raised). *)
Theorem unmatched_response_ignored :
  forall h c line fs,
    find_pending (match assoc "id" fs with Some v => v | None => JUndef end) (pending h) = None ->
    step h (StdoutLine c line (Some (JObj fs))) = (h, []).
Proof.
  intros h c line fs Hf. simpl step. unfold on_stdout_line.
  destruct (negb (Nat.ltb c (next_child h)) || mem c (closed h)); [reflexivity|].
  simpl. rewrite Hf. reflexivity.
Qed.

Lemma unmatched_response_ignored_witness :
  step after_crash (StdoutLine 1 "late" (Some (JObj [("jsonrpc", JStr "2.0"); ("id", JNum 1);
                                                    ("result", JObj [])])))
  = (after_crash, []).
Proof. apply unmatched_response_ignored. vm_compute. reflexivity. Defined.

End HostProofs.

Module DiscoveryProofs.
Import Js Discovery.

(** Every file holds a value [JSON.parse] can produce. *)
Definition fs_json (fs : node) : Prop :=
  forall p v, lookup fs p = Some (File (Some v)) -> is_json v = true.

Lemma lookup_app : forall p q n,
  lookup n (app p q) = match lookup n p with Some m => lookup m q | None => None end.
Proof.
  induction p as [|seg p IH]; intros q n; [reflexivity|].
  simpl. destruct n as [| |l es]; try reflexivity.
  destruct (entry_of seg es); [apply IH|reflexivity].
Qed.

Lemma not_dir_not_loaded : forall fs p n,
  SpecRules.is_dir fs (app p [n]) = false -> tryLoadPlugin fs (app p [n]) = None.
Proof.
  intros fs p n H. unfold SpecRules.is_dir in H. unfold tryLoadPlugin, existsSync.
  rewrite lookup_app.
  destruct (lookup fs (app p [n])) as [[| |l es]|]; try reflexivity. discriminate.
Qed.

Lemma load_all_filter : forall fs (f : string -> list string) (P : string -> bool) l,
  (forall n, P n = false -> tryLoadPlugin fs (f n) = None) ->
  load_all fs (map f l) = load_all fs (map f (filter P l)).
Proof.
  intros fs f P l H. induction l as [|x l IH]; [reflexivity|].
  simpl. destruct (P x) eqn:E; simpl.
  - unfold load_all in *. simpl. rewrite IH. reflexivity.
  - unfold load_all in *. simpl. rewrite (H x E). simpl. exact IH.
Qed.

Lemma filter_comm : forall {A} (P Q : A -> bool) l,
  filter P (filter Q l) = filter Q (filter P l).
Proof.
  intros A P Q l. induction l as [|x l IH]; [reflexivity|].
  simpl. destruct (Q x) eqn:EQ, (P x) eqn:EP; simpl; rewrite ?EQ, ?EP, IH; reflexivity.
Qed.

Lemma is_json_assoc : forall fs k v,
  is_json (JObj fs) = true -> assoc k fs = Some v -> is_json v = true.
Proof.
  induction fs as [|[k' x] fs IH]; intros k v Hj Ha; [discriminate|].
  simpl in Hj, Ha. apply andb_true_iff in Hj as [Hx Hr].
  destruct (String.eqb k k'); [inversion Ha; subst; exact Hx|].
  exact (IH k v Hr Ha).
Qed.

Lemma nullish_field : forall k fs d,
  nullish (match assoc k fs with Some x => x | None => JUndef end) d = SpecRules.field_or k fs d.
Proof.
  intros k fs d. unfold SpecRules.field_or.
  destruct (assoc k fs) as [[]|]; reflexivity.
Qed.

Lemma nullish_nullish : forall a b c, nullish (nullish a b) c = nullish a (nullish b c).
Proof. intros a b c; destruct a; reflexivity. Qed.

Lemma tryLoadPlugin_descriptor : forall fs d,
  fs_json fs -> tryLoadPlugin fs d = SpecRules.descriptor fs d.
Proof.
  intros fs d Hfs. unfold tryLoadPlugin, SpecRules.descriptor, existsSync.
  destruct (lookup fs (app d ["package.json"])) as [[[pkg|]| |l es]|] eqn:E;
    try reflexivity.
  pose proof (Hfs _ _ E) as Hj.
  destruct pkg as [| |b|z|z|s|xs|pfs|nm msg ps]; try discriminate; try reflexivity.
  simpl. destruct (assoc "junctionrelay" pfs) as [jr|] eqn:Ejr; [|reflexivity].
  pose proof (is_json_assoc _ _ _ Hj Ejr) as Hjr.
  destruct jr as [| |b'|z'|z'|s'|xs'|jf|nm' msg' ps']; try discriminate; simpl;
    try (destruct b'); try (destruct (negb (z' =? 0)%Z)); try (destruct (negb (s' =? EmptyString)));
    try reflexivity.
  destruct (assoc "type" jf) as [t|] eqn:Et; [|reflexivity].
  destruct t as [| |b''|z''|z''|s''|xs''|tf|nm'' msg'' ps'']; try reflexivity.
  simpl. destruct (String.eqb s'' "collector") eqn:Es; [|reflexivity].
  simpl. rewrite nullish_nullish, !nullish_field. reflexivity.
Qed.

Lemma load_all_descriptor : forall fs ds,
  fs_json fs ->
  load_all fs ds = flat_map (fun d => match SpecRules.descriptor fs d with
                                      | Some p => [p] | None => [] end) ds.
Proof.
  intros fs ds H. unfold load_all. apply flat_map_ext. intros d.
  rewrite tryLoadPlugin_descriptor by exact H. reflexivity.
Qed.

Lemma guard_irrelevant : forall fs p (g : list string -> list string) f,
  g [] = [] ->
  (if existsSync fs p then load_all fs (map f (g (safeReaddir fs p))) else [])
  = load_all fs (map f (g (safeReaddir fs p))).
Proof.
  intros fs p g f Hg. unfold existsSync, safeReaddir.
  destruct (lookup fs p); [reflexivity|]. rewrite Hg. reflexivity.
Qed.

Lemma discover_not_dir : forall fs root,
  SpecRules.is_dir fs root = false -> discoverPlugins fs root = [].
Proof.
  intros fs root H. unfold SpecRules.is_dir in H. unfold discoverPlugins, existsSync, safeReaddir.
  rewrite !lookup_app.
  destruct (lookup fs root) as [[| |l es]|]; try discriminate; reflexivity.
Qed.

Lemma load_all_subdirs : forall fs p (P : string -> bool),
  load_all fs (map (fun e => app p [e]) (filter P (safeReaddir fs p)))
  = load_all fs (map (fun e => app p [e]) (filter P (SpecRules.subdirs fs p))).
Proof.
  intros fs p P. unfold SpecRules.subdirs. rewrite filter_comm.
  apply load_all_filter. intros n Hn. apply not_dir_not_loaded. exact Hn.
Qed.

Lemma filter_true : forall {A} (l : list A), filter (fun _ => true) l = l.
Proof. intros A l; induction l as [|x l IH]; simpl; [reflexivity|now rewrite IH]. Qed.

(** C8: over a file system whose files hold JSON values, [discoverPlugins]
    returns exactly the descriptors the discovery rules give: the candidate
    directories (subdirectories of the root, the [plugin-*] directories of
    node_modules/@junctionrelay and the [junctionrelay-plugin-*] directories
    of node_modules) whose package.json parses to an object with a
    [junctionrelay] object of [type] "collector", each with name (package
    name, else basename), version (else "0.0.0"), path, entry (manifest
    entry, else main, else "index.ts") and manifest; candidates with file
    system or parse errors are skipped; and a root that does not exist or is
    not a directory gives [] on any file system. *)
Theorem discoverPlugins_matches_spec : forall fs root,
  (fs_json fs -> discoverPlugins fs root = SpecRules.discover fs root) /\
  (SpecRules.is_dir fs root = false -> discoverPlugins fs root = []).
Proof.
  intros fs root. split; [|apply discover_not_dir].
  intros Hfs. unfold SpecRules.discover.
  destruct (SpecRules.is_dir fs root) eqn:Hd; [|apply discover_not_dir; exact Hd].
  unfold discoverPlugins, SpecRules.candidates.
  rewrite (guard_irrelevant fs root (fun l => l)) by reflexivity.
  rewrite (guard_irrelevant fs _ (filter (String.prefix "plugin-"))) by reflexivity.
  rewrite (guard_irrelevant fs _ (filter (String.prefix "junctionrelay-plugin-"))) by reflexivity.
  rewrite <- (filter_true (safeReaddir fs root)), load_all_subdirs, filter_true.
  rewrite (load_all_subdirs fs (app root ["node_modules"; "@junctionrelay"])).
  rewrite (load_all_subdirs fs (app root ["node_modules"])).
  rewrite !load_all_descriptor by exact Hfs.
  rewrite !flat_map_app. reflexivity.
Qed.

(** The layout of the discovery test: a plugin directory, a directory
    without package.json, one whose manifest has another type, a scoped and
    an unscoped package under node_modules, and a plain file. *)
Definition pkg (nm : string) (ty : string) : node :=
  Dir true [("package.json",
             File (Some (JObj [("name", JStr nm); ("version", JStr "1.0.0");
                               ("junctionrelay", JObj [("type", JStr ty)])])))].

Definition test_fs : node :=
  Dir true [("plugins",
    Dir true [("my-plugin", pkg "my-plugin" "collector");
              ("not-a-plugin", Dir true [("readme.md", UnreadableFile)]);
              ("wrong-type", pkg "wrong-type" "renderer");
              ("notes.txt", File None);
              ("node_modules",
                Dir true [("@junctionrelay",
                             Dir true [("plugin-weather", pkg "@junctionrelay/plugin-weather" "collector");
                                       ("other", pkg "other" "collector")]);
                          ("junctionrelay-plugin-cpu", pkg "junctionrelay-plugin-cpu" "collector")])])].

Fixpoint all_json (n : node) : bool :=
  match n with
  | File (Some v) => is_json v
  | File None | UnreadableFile => true
  | Dir _ es => (fix go (es : list (string * node)) : bool :=
                   match es with [] => true | (_, x) :: t => all_json x && go t end) es
  end.

Lemma entry_of_all_json : forall seg es x l,
  all_json (Dir l es) = true -> entry_of seg es = Some x -> all_json x = true.
Proof.
  intros seg es. induction es as [|[n y] es IH]; intros x l H He; [discriminate|].
  simpl in H, He. apply andb_true_iff in H as [Hy Hr].
  destruct (String.eqb seg n); [inversion He; subst; exact Hy|].
  exact (IH x l Hr He).
Qed.

Lemma all_json_fs_json : forall fs, all_json fs = true -> fs_json fs.
Proof.
  intros fs H p. revert fs H. induction p as [|seg p IH]; intros fs H v Hl.
  - simpl in Hl. inversion Hl; subst. exact H.
  - destruct fs as [| |l es]; try discriminate.
    simpl in Hl. destruct (entry_of seg es) as [x|] eqn:E; [|discriminate].
    exact (IH x (entry_of_all_json seg es x l H E) v Hl).
Qed.

Lemma test_fs_json : fs_json test_fs.
Proof. apply all_json_fs_json. vm_compute. reflexivity. Qed.

Lemma discoverPlugins_matches_spec_witness :
  fs_json test_fs /\
  discoverPlugins test_fs ["plugins"] = SpecRules.discover test_fs ["plugins"] /\
  SpecRules.is_dir test_fs ["plugins"; "notes.txt"] = false /\
  discoverPlugins test_fs ["plugins"; "notes.txt"] = [] /\
  map name (discoverPlugins test_fs ["plugins"])
    = [JStr "my-plugin"; JStr "@junctionrelay/plugin-weather"; JStr "junctionrelay-plugin-cpu"].
Proof.
  split; [exact test_fs_json|].
  split; [apply (proj1 (discoverPlugins_matches_spec test_fs ["plugins"])); exact test_fs_json|].
  split; [vm_compute; reflexivity|].
  split; [apply (proj2 (discoverPlugins_matches_spec test_fs ["plugins"; "notes.txt"])); vm_compute; reflexivity|].
  vm_compute. reflexivity.
Defined.

End DiscoveryProofs.

Module HelpersProofs.
Import Helpers.

(** The model on plain inputs: "3.14" has 2 places, "2.50" has 1 (its
    canonical form is 2.5), "-0.125" has 3, "42" none, and the empty string
    and "abc" give 0. *)
Lemma getDecimalPlaces_plain_examples :
  getDecimalPlaces "3.14" = 2%Z /\ getDecimalPlaces "2.50" = 1%Z /\
  getDecimalPlaces "-0.125" = 3%Z /\ getDecimalPlaces "42" = 0%Z /\
  getDecimalPlaces EmptyString = 0%Z /\ getDecimalPlaces "abc" = 0%Z /\
  Number_toString (parseFloat "1e21") = "1e+21" /\
  Number_toString (parseFloat "0.000001") = "0.000001".
Proof. vm_compute. repeat split. Qed.

(** C9: "1.5e-7" parses to a finite number whose canonical string form is
    "1.5e-7", with one digit after the decimal point, but
    [getDecimalPlaces "1.5e-7"] is 4: it counts every character after the
    point, including the exponent suffix "e-7". *)
Theorem getDecimalPlaces_counts_exponent :
  is_nan (parseFloat "1.5e-7") = false /\
  Number_toString (parseFloat "1.5e-7") = "1.5e-7" /\
  fraction_digits (Number_toString (parseFloat "1.5e-7")) = 1 /\
  getDecimalPlaces "1.5e-7" = 4%Z.
Proof. vm_compute. repeat split. Qed.

End HelpersProofs.

(** ** Invariants and edge behaviour of the supervisor *)
Module HostExtraProofs.
Import Js Host.

Definition req_ids (es : list Effect) : list nat :=
  flat_map (fun e => match e with ToChild _ rq => [rq_id rq] | _ => [] end) es.

Definition restarts (es : list Effect) : nat :=
  List.length (filter (fun e => match e with OnRestart _ => true | _ => false end) es).

Definition good (h : PluginHost) (r : PluginHost * list Effect) : Prop :=
  options (fst r) = options h /\
  nextId h <= nextId (fst r) /\
  req_ids (snd r) = List.seq (nextId h) (nextId (fst r) - nextId h) /\
  restartCount h + restarts (snd r) <= restartCount (fst r) /\
  restartCount (fst r) <= Nat.max (restartCount h) (maxRestarts (options h)) /\
  exists l, logs (fst r) = app (logs h) l.

Ltac gsplit := split; [|split; [|split; [|split; [|split]]]].

Lemma req_ids_app : forall a b, req_ids (app a b) = app (req_ids a) (req_ids b).
Proof. intros; unfold req_ids; apply flat_map_app. Qed.

Lemma restarts_app : forall a b, restarts (app a b) = restarts a + restarts b.
Proof. intros; unfold restarts; rewrite filter_app, length_app; reflexivity. Qed.

Lemma good_same : forall h h' es,
  options h' = options h -> nextId h' = nextId h -> restartCount h' = restartCount h ->
  logs h' = logs h -> req_ids es = [] -> restarts es = 0 -> good h (h', es).
Proof.
  intros h h' es Ho Hn Hr Hl Hq Hs. unfold good; simpl.
  rewrite Ho, Hn, Hr, Hl, Hq, Hs, Nat.sub_diag.
  gsplit; try lia; try reflexivity. exists []. rewrite app_nil_r. reflexivity.
Qed.

Lemma good_equiv : forall h h1 r,
  options h1 = options h -> nextId h1 = nextId h -> restartCount h1 = restartCount h ->
  logs h1 = logs h -> good h1 r -> good h r.
Proof.
  intros h h1 r Ho Hn Hr Hl (G1 & G2 & G3 & G4 & G5 & G6). unfold good.
  rewrite <- Ho, <- Hn, <- Hr, <- Hl. gsplit; assumption.
Qed.

Lemma good_seq : forall h r k,
  good h r -> (forall h1, good h1 (k h1)) -> good h (Host.seq r k).
Proof.
  intros h [h1 e1] k G Hk. unfold Host.seq.
  specialize (Hk h1). destruct (k h1) as [h2 e2].
  destruct G as (G1 & G2 & G3 & G4 & G5 & l1 & G6).
  destruct Hk as (K1 & K2 & K3 & K4 & K5 & l2 & K6).
  simpl in *. unfold good; simpl.
  gsplit.
  - congruence.
  - lia.
  - rewrite req_ids_app, G3, K3.
    replace (nextId h2 - nextId h) with ((nextId h1 - nextId h) + (nextId h2 - nextId h1)) by lia.
    rewrite List.seq_app. f_equal. f_equal. lia.
  - rewrite restarts_app. lia.
  - rewrite G1 in K5. lia.
  - exists (app l1 l2). rewrite K6, G6, app_assoc. reflexivity.
Qed.

Lemma good_log : forall h m, good h (log h m).
Proof.
  intros h m. unfold good, log; simpl.
  rewrite Nat.sub_diag.
  destruct (has_onLog (options h)); unfold restarts; simpl; gsplit; try lia; try reflexivity; exists [m]; reflexivity.
Qed.

Lemma good_log_all : forall ms h, good h (log_all h ms).
Proof.
  induction ms as [|m ms IH]; intros h.
  - apply good_same; reflexivity.
  - change (log_all h (m :: ms)) with (Host.seq (log h m) (fun h' => log_all h' ms)).
    apply good_seq; [apply good_log|]. intros; apply IH.
Qed.

Lemma good_send : forall h m p r, good h (send h m p r).
Proof.
  intros h m p r. unfold send.
  destruct (process h) as [c|].
  - destruct (mem c (live h) && negb (mem c (stdin_ended h))).
    + unfold good, restarts; cbn [fst snd nextId options restartCount logs set_fields].
      replace (S (nextId h) - nextId h) with 1 by lia. simpl.
      gsplit; try lia; try reflexivity. exists []. rewrite app_nil_r; reflexivity.
    + destruct r; [apply good_log|apply good_same; reflexivity].
  - destruct r; [apply good_log|apply good_same; reflexivity].
Qed.

Lemma good_configure : forall h p r, good h (configure h p r).
Proof.
  intros h p r. unfold configure. eapply good_equiv; [| | | |apply good_send]; reflexivity.
Qed.

Lemma good_spawn : forall h w, good h (spawnProcess h w).
Proof. intros; apply good_same; reflexivity. Qed.

Lemma good_start : forall h, good h (start h).
Proof. intros. unfold start. eapply good_equiv; [| | | |apply good_spawn]; reflexivity. Qed.

Lemma good_stop : forall h, good h (stop h).
Proof. intros. unfold stop. destruct (process h); apply good_same; reflexivity. Qed.

Lemma req_ids_rejected : forall (f : PendingEntry -> Effect) ps,
  (forall e, req_ids [f e] = [] /\ restarts [f e] = 0) ->
  req_ids (map f ps) = [] /\ restarts (map f ps) = 0.
Proof.
  intros f ps H. induction ps as [|e ps IH]; [split; reflexivity|].
  change (map f (e :: ps)) with (app [f e] (map f ps)).
  rewrite req_ids_app, restarts_app. destruct (H e) as [H1 H2]. destruct IH as [I1 I2].
  rewrite H1, H2, I1, I2. split; reflexivity.
Qed.

Lemma rejected_quiet : forall msg ps,
  req_ids (map (fun e => Rejected (pe_id e) msg) ps) = [] /\
  restarts (map (fun e => Rejected (pe_id e) msg) ps) = 0.
Proof. intros; apply req_ids_rejected; intros; split; reflexivity. Qed.

Lemma good_prefix : forall h h' pre es,
  good h (h', es) -> req_ids pre = [] -> restarts pre = 0 -> good h (h', app pre es).
Proof.
  intros h h' pre es (G1 & G2 & G3 & G4 & G5 & G6) Hq Hs. unfold good in *; simpl in *.
  rewrite req_ids_app, restarts_app, Hq, Hs. simpl. gsplit; try assumption; lia.
Qed.

Lemma good_on_exit : forall h c code, good h (on_exit h c code).
Proof.
  intros h c code. unfold on_exit.
  destruct (negb (mem c (live h))); [apply good_same; reflexivity|].
  match goal with |- context [set_fields h ?a ?b ?d ?e ?f ?g [] ?i ?j ?k ?l ?m] =>
    set (h1 := set_fields h a b d e f g [] i j k l m) end.
  assert (Ho : options h1 = options h) by reflexivity.
  assert (Hn : nextId h1 = nextId h) by reflexivity.
  assert (Hr : restartCount h1 = restartCount h) by reflexivity.
  assert (Hl : logs h1 = logs h) by reflexivity.
  clearbody h1.
  match goal with |- good h (let '(_, _) := ?X in _) => destruct X as [h5 e5] eqn:E5 end.
  apply good_prefix.
  2: { rewrite req_ids_app, (proj1 (rejected_quiet _ _)).
       destruct (has_onExit (options h)); reflexivity. }
  2: { rewrite restarts_app, (proj2 (rejected_quiet _ _)).
       destruct (has_onExit (options h)); reflexivity. }
  rewrite <- E5. apply good_seq; [|intros; apply good_log_all].
  apply (good_equiv h h1); try assumption.
  destruct (negb (stopped h1) && Nat.ltb (restartCount h1) (maxRestarts (options h))) eqn:Hc.
  - apply good_seq; [|intros; apply good_log].
    apply andb_true_iff in Hc as [_ Hc]. apply Nat.ltb_lt in Hc.
    unfold good, restarts; cbn [fst snd options nextId restartCount logs set_fields].
    rewrite Nat.sub_diag, Ho.
    destruct (has_onRestart (options h)); simpl; gsplit; try lia; try reflexivity;
      exists []; rewrite app_nil_r; reflexivity.
  - destruct (negb (stopped h1) && Nat.leb (maxRestarts (options h)) (restartCount h1)).
    + apply good_seq; [|intros; apply good_log].
      apply good_same; try reflexivity; destruct (has_onMaxRestartsExceeded (options h)); reflexivity.
    + apply good_same; reflexivity.
Qed.

Lemma good_with_waiting : forall h1 w r, good (with_waiting h1 w) r -> good h1 r.
Proof. intros h1 w r G. eapply good_equiv; [| | | |exact G]; reflexivity. Qed.

Lemma good_on_stderr_line : forall h c line, good h (on_stderr_line h c line).
Proof.
  intros h c line. unfold on_stderr_line.
  destruct (negb (c <? next_child h)%nat || mem c (closed h)); [apply good_same; reflexivity|].
  apply good_seq; [apply good_log|]. intros h1.
  destruct (find_waiter c (waiting h1)) as [[]|]; try (apply good_same; reflexivity).
  apply good_with_waiting with (w := remove_waiter c (waiting h1)).
  destruct (lastConfigureParams (with_waiting h1 (remove_waiter c (waiting h1)))).
  - apply good_configure.
  - apply good_same; reflexivity.
Qed.

Lemma good_on_ready_timeout : forall h c, good h (on_ready_timeout h c).
Proof.
  intros h c. unfold on_ready_timeout.
  destruct (find_waiter c (waiting h)) as [[]|]; try (apply good_same; reflexivity).
  apply good_with_waiting with (w := remove_waiter c (waiting h)). apply good_log.
Qed.

Lemma good_on_restart_timer : forall h, good h (on_restart_timer h).
Proof.
  intros h. unfold on_restart_timer. destruct (restart_timers h).
  - apply good_same; reflexivity.
  - eapply good_equiv; [| | | |apply good_spawn]; reflexivity.
Qed.

Lemma good_reject_entry : forall h e m, good h (reject_entry h e m).
Proof.
  intros h e m. unfold reject_entry. apply good_seq.
  - apply good_same; reflexivity.
  - intros h1. destruct (pe_replay e); [apply good_log|apply good_same; reflexivity].
Qed.

Lemma good_with_pending : forall h ps r, good (with_pending h ps) r -> good h r.
Proof. intros h ps r G. eapply good_equiv; [| | | |exact G]; reflexivity. Qed.

Lemma good_on_stdout_line : forall h c line parsed, good h (on_stdout_line h c line parsed).
Proof.
  intros h c line parsed. unfold on_stdout_line.
  destruct (negb (c <? next_child h)%nat || mem c (closed h)); [apply good_same; reflexivity|].
  destruct parsed as [response|]; [|apply good_log].
  destruct (get response "id") as [id|]; [|apply good_log].
  destruct (find_pending id (pending h)) as [e|]; [|apply good_same; reflexivity].
  apply good_with_pending with (ps := drop_pending (pe_id e) (pending h)).
  destruct (get response "error") as [err|]; [|apply good_log].
  destruct (truthy err).
  - destruct (get err "message") as [[]|]; try apply good_reject_entry; apply good_log.
  - destruct (get response "result"); [apply good_same; reflexivity|apply good_log].
Qed.

Lemma good_on_request_timeout : forall h id, good h (on_request_timeout h id).
Proof.
  intros h id. unfold on_request_timeout.
  destruct (find _ (pending h)) as [e|]; [|apply good_same; reflexivity].
  eapply good_with_pending. apply good_reject_entry.
Qed.

Lemma good_step : forall h ev, good h (step h ev).
Proof.
  intros h []; simpl.
  - apply good_start.
  - apply good_stop.
  - apply good_configure.
  - apply good_send.
  - apply good_on_stdout_line.
  - apply good_on_stderr_line.
  - apply good_on_exit.
  - apply good_on_ready_timeout.
  - apply good_on_restart_timer.
  - apply good_on_request_timeout.
Qed.

Lemma good_run : forall evs h, good h (run h evs).
Proof.
  induction evs as [|ev evs IH]; intros h.
  - apply good_same; reflexivity.
  - change (run h (ev :: evs)) with (Host.seq (step h ev) (fun h' => run h' evs)).
    apply good_seq; [apply good_step|]. intros; apply IH.
Qed.

Definition is_rejected (e : Effect) : bool := match e with Rejected _ _ => true | _ => false end.
Definition is_restart_effect (e : Effect) : bool :=
  match e with OnRestart _ | OnMaxRestartsExceeded => true | _ => false end.

(** What a run of [log] calls leaves alone. *)
Definition frame (h : PluginHost) (r : PluginHost * list Effect) : Prop :=
  pending (fst r) = pending h /\ process (fst r) = process h /\
  stopped (fst r) = stopped h /\ restart_timers (fst r) = restart_timers h /\
  forallb (fun e => negb (is_rejected e) && negb (is_restart_effect e)) (snd r) = true.

Lemma frame_log : forall h m, frame h (log h m).
Proof. intros. unfold frame, log; simpl. destruct (has_onLog (options h)); repeat split. Qed.

Lemma frame_seq : forall h r k, frame h r -> (forall h1, frame h1 (k h1)) -> frame h (Host.seq r k).
Proof.
  intros h [h1 e1] k (F1 & F2 & F3 & F4 & F5) Hk. unfold Host.seq.
  specialize (Hk h1). destruct (k h1) as [h2 e2]. destruct Hk as (K1 & K2 & K3 & K4 & K5).
  simpl in *. unfold frame; simpl. rewrite forallb_app, F5, K5. repeat split; congruence.
Qed.

Lemma frame_log_all : forall ms h, frame h (log_all h ms).
Proof.
  induction ms as [|m ms IH]; intros h.
  - unfold frame; repeat split.
  - change (log_all h (m :: ms)) with (Host.seq (log h m) (fun h' => log_all h' ms)).
    apply frame_seq; [apply frame_log|]. intros; apply IH.
Qed.

Lemma seq_log : forall r m,
  Host.seq r (fun h3 => log h3 m) = (fst (log (fst r) m), app (snd r) (snd (log (fst r) m))).
Proof. intros [h1 e1] m. unfold Host.seq. simpl. destruct (log h1 m); reflexivity. Qed.

Lemma forallb_weaken : forall es,
  forallb (fun e => negb (is_rejected e) && negb (is_restart_effect e)) es = true ->
  forallb (fun e => negb (is_rejected e)) es = true.
Proof.
  induction es as [|x es IH]; intros H; [reflexivity|]. simpl in *.
  apply andb_true_iff in H as [H1 H2]. apply andb_true_iff in H1 as [H1 _].
  rewrite H1, (IH H2). reflexivity.
Qed.

Lemma filter_rejected_map : forall msg ps,
  filter is_rejected (map (fun e => Rejected (pe_id e) msg) ps) = map (fun e => Rejected (pe_id e) msg) ps.
Proof. intros msg ps. induction ps as [|e ps IH]; simpl; [reflexivity|rewrite IH; reflexivity]. Qed.

Lemma filter_none : forall (f g : Effect -> bool) es,
  forallb (fun e => negb (f e) && g e) es = true -> filter f es = [].
Proof.
  intros f g es H. induction es as [|e es IH]; [reflexivity|].
  simpl in *. apply andb_true_iff in H as [H1 H2]. apply andb_true_iff in H1 as [H1 _].
  destruct (f e); [discriminate|]. apply IH, H2.
Qed.

(** The [exit] listener, for a child that has not exited yet: every pending
    request is rejected once, in order, the map is emptied, [this.process]
    is left as it was; after [stop()] no restart is scheduled. *)
Lemma exit_shape : forall h c code,
  mem c (live h) = true ->
  let r := on_exit h c code in
  pending (fst r) = [] /\ process (fst r) = process h /\
  filter is_rejected (snd r) =
    map (fun e => Rejected (pe_id e) ("Plugin process exited with code " ++ code_str code)) (pending h) /\
  (stopped h = true ->
     restart_timers (fst r) = restart_timers h /\ filter is_restart_effect (snd r) = []).
Proof.
  intros h c code Hl r. subst r. unfold on_exit.
  destruct (negb (mem c (live h))) eqn:Hn; [rewrite Hl in Hn; discriminate|].
  match goal with |- context [set_fields h ?a ?b ?d ?e ?f ?g [] ?i ?j ?k ?l ?m] =>
    set (h1 := set_fields h a b d e f g [] i j k l m) end.
  assert (Hp : pending h1 = []) by reflexivity.
  assert (Hq : process h1 = process h) by reflexivity.
  assert (Hs : stopped h1 = stopped h) by reflexivity.
  assert (Ht : restart_timers h1 = restart_timers h) by reflexivity.
  clearbody h1.
  match goal with |- context [Host.seq ?P (fun h4 => log_all h4 ?ms)] => set (policy := P) end.
  match goal with |- context [Host.seq policy (fun h4 => log_all h4 ?ms)] => set (rl := ms) end.
  assert (Hpol : pending (fst policy) = [] /\ process (fst policy) = process h /\
                 forallb (fun e => negb (is_rejected e)) (snd policy) = true /\
                 stopped (fst policy) = stopped h /\
                 (stopped h = true -> restart_timers (fst policy) = restart_timers h /\
                                      snd policy = [])).
  { subst policy. rewrite Hs.
    destruct (stopped h) eqn:Est; cbn [negb andb fst snd].
    - rewrite ?Hp, ?Hq, ?Hs. repeat split; assumption.
    - destruct (restartCount h1 <? maxRestarts (options h))%nat; cbn [negb andb].
      + rewrite seq_log. cbn [fst snd].
        match goal with |- context [log ?x ?y] => destruct (frame_log x y) as (F1 & F2 & F3 & F4 & F5) end.
        rewrite F1, F2, F3. cbn [set_fields pending process stopped].
        rewrite ?Hp, ?Hq, ?Hs. split; [reflexivity|]. split; [reflexivity|].
        split; [|split; [reflexivity|discriminate]].
        rewrite forallb_app. apply andb_true_iff; split.
        * destruct (has_onRestart (options h)); reflexivity.
        * exact (forallb_weaken _ F5).
      + destruct (maxRestarts (options h) <=? restartCount h1)%nat; cbn [negb andb].
        * rewrite seq_log. cbn [fst snd].
          match goal with |- context [log ?x ?y] => destruct (frame_log x y) as (F1 & F2 & F3 & F4 & F5) end.
          rewrite F1, F2, F3, ?Hp, ?Hq, ?Hs. split; [reflexivity|]. split; [reflexivity|].
          split; [|split; [reflexivity|discriminate]].
          rewrite forallb_app. apply andb_true_iff; split.
          -- destruct (has_onMaxRestartsExceeded (options h)); reflexivity.
          -- exact (forallb_weaken _ F5).
        * cbn [fst snd]. rewrite ?Hp, ?Hq, ?Hs. repeat split; discriminate. }
  destruct policy as [h4 e4]. destruct Hpol as (P1 & P2 & P3 & P4 & P5). simpl in *.
  destruct (frame_log_all rl h4) as (L1 & L2 & L3 & L4 & L5).
  unfold Host.seq. destruct (log_all h4 rl) as [h5 e5]. simpl in *.
  split; [congruence|]. split; [congruence|]. split.
  - rewrite !filter_app, filter_rejected_map.
    rewrite (filter_none is_rejected (fun e => negb (is_restart_effect e)) e5 L5).
    assert (filter is_rejected e4 = []).
    { clear -P3. induction e4 as [|x e4 IH]; [reflexivity|]. simpl in *.
      apply andb_true_iff in P3 as [P3a P3b]. destruct (is_rejected x); [discriminate|]. apply IH, P3b. }
    rewrite H. destruct (has_onExit (options h)); simpl; rewrite !app_nil_r; reflexivity.
  - intros Hst. destruct (P5 Hst) as [P5a P5b]. split; [congruence|].
    rewrite P5b. simpl. rewrite !filter_app.
    assert (Hf : filter is_restart_effect e5 = []).
    { clear -L5. induction e5 as [|x e5 IH]; [reflexivity|]. simpl in *.
      apply andb_true_iff in L5 as [L5a L5b]. apply andb_true_iff in L5a as [_ L5a].
      destruct (is_restart_effect x); [discriminate|]. apply IH, L5b. }
    rewrite Hf.
    assert (Hm : forall msg ps, filter is_restart_effect (map (fun e => Rejected (pe_id e) msg) ps) = []).
    { intros msg ps. induction ps; simpl; [reflexivity|exact IHps]. }
    rewrite Hm. destruct (has_onExit (options h)); reflexivity.
Qed.

(** Request ids in [this.pending] are distinct and below [this.nextId]. *)
Definition ids (h : PluginHost) : list nat := map pe_id (pending h).

Definition pinv (h : PluginHost) : Prop :=
  NoDup (ids h) /\ Forall (fun i => i < nextId h) (ids h).

Lemma fst_seq : forall r k, fst (Host.seq r k) = fst (k (fst r)).
Proof. intros [h1 e1] k. unfold Host.seq. change (fst (h1, e1)) with h1. destruct (k h1); reflexivity. Qed.

Lemma pinv_log : forall h m, pinv h -> pinv (fst (log h m)).
Proof. intros h m H. exact H. Qed.

Lemma pinv_log_all : forall ms h, pinv h -> pinv (fst (log_all h ms)).
Proof.
  induction ms as [|m ms IH]; intros h H; [exact H|].
  cbn [log_all]. rewrite fst_seq. apply IH, pinv_log, H.
Qed.

Lemma pinv_send : forall h m p r, pinv h -> pinv (fst (send h m p r)).
Proof.
  intros h m p r [H1 H2]. unfold send.
  destruct (process h) as [c|].
  - destruct (mem c (live h) && negb (mem c (stdin_ended h))).
    + unfold pinv, ids in *; cbn [fst set_fields pending nextId].
      rewrite map_app. cbn [map pe_id]. split.
      * apply (Permutation.Permutation_NoDup (Permutation.Permutation_cons_append _ _)).
        constructor; [|exact H1].
        intros Hin. rewrite Forall_forall in H2. specialize (H2 _ Hin). lia.
      * apply Forall_app; split.
        -- eapply Forall_impl; [|exact H2]. intros a Ha; simpl in Ha; lia.
        -- constructor; [lia|constructor].
    + destruct r; [apply pinv_log; split; assumption|split; assumption].
  - destruct r; [apply pinv_log; split; assumption|split; assumption].
Qed.

Lemma pinv_configure : forall h p r, pinv h -> pinv (fst (configure h p r)).
Proof. intros h p r H. unfold configure. apply pinv_send. exact H. Qed.

Lemma pinv_filter : forall h g, pinv h -> pinv (with_pending h (filter g (pending h))).
Proof.
  intros h g [H1 H2]. unfold pinv, ids in *. cbn [with_pending pending nextId].
  generalize dependent (pending h). intros ps. induction ps as [|x ps IH]; intros H1 H2.
  - split; constructor.
  - simpl in H1, H2. inversion H1 as [|? ? Ha Hb]; subst. inversion H2 as [|? ? Hc Hd]; subst.
    destruct (IH Hb Hd) as [I1 I2]. simpl. destruct (g x); [|split; assumption].
    simpl. split; [|constructor; assumption].
    constructor; [|exact I1]. intros Hin. apply Ha.
    apply in_map_iff in Hin as (y & Hy & Hy2). apply filter_In in Hy2 as [Hy2 _].
    apply in_map_iff. exists y. split; assumption.
Qed.

Lemma pinv_reject_entry : forall h e m, pinv h -> pinv (fst (reject_entry h e m)).
Proof.
  intros h e m H. unfold reject_entry. rewrite fst_seq. cbn [fst].
  destruct (pe_replay e); [apply pinv_log|]; exact H.
Qed.

Lemma pinv_on_stdout_line : forall h c line parsed, pinv h -> pinv (fst (on_stdout_line h c line parsed)).
Proof.
  intros h c line parsed H. unfold on_stdout_line.
  destruct (negb (c <? next_child h)%nat || mem c (closed h)); [exact H|].
  destruct parsed as [resp|]; [|apply pinv_log, H].
  destruct (get resp "id") as [id|]; [|apply pinv_log, H].
  destruct (find_pending id (pending h)) as [e|]; [|exact H].
  pose proof (pinv_filter h (fun x => negb (Nat.eqb (pe_id x) (pe_id e))) H) as Hf.
  change (filter (fun x => negb (Nat.eqb (pe_id x) (pe_id e))) (pending h))
    with (drop_pending (pe_id e) (pending h)) in Hf.
  destruct (get resp "error") as [err|]; [|apply pinv_log, Hf].
  destruct (truthy err).
  - destruct (get err "message") as [[]|]; try apply pinv_reject_entry, Hf; apply pinv_log, Hf.
  - destruct (get resp "result"); [exact Hf|apply pinv_log, Hf].
Qed.

Lemma pinv_on_request_timeout : forall h id, pinv h -> pinv (fst (on_request_timeout h id)).
Proof.
  intros h id H. unfold on_request_timeout.
  destruct (find _ (pending h)) as [e|]; [|exact H].
  apply pinv_reject_entry. apply (pinv_filter h (fun x => negb (Nat.eqb (pe_id x) id)) H).
Qed.

Lemma pinv_stop : forall h, pinv h -> pinv (fst (stop h)).
Proof.
  intros h [H1 H2]. unfold stop, pinv, ids in *.
  assert (Hm : forall ps, map pe_id (map (fun e => {| pe_id := pe_id e; pe_method := pe_method e;
                 pe_armed := false; pe_replay := pe_replay e |}) ps) = map pe_id ps).
  { intros ps. rewrite map_map. reflexivity. }
  destruct (process h); cbn [fst set_fields pending nextId]; rewrite Hm; split; assumption.
Qed.

Lemma pinv_on_exit : forall h c code, pinv h -> pinv (fst (on_exit h c code)).
Proof.
  intros h c code H. destruct (mem c (live h)) eqn:Hl.
  - destruct (exit_shape h c code Hl) as (E1 & _). unfold pinv, ids. rewrite E1. split; constructor.
  - unfold on_exit. rewrite Hl. exact H.
Qed.

Lemma pinv_on_stderr_line : forall h c line, pinv h -> pinv (fst (on_stderr_line h c line)).
Proof.
  intros h c line H. unfold on_stderr_line.
  destruct (negb (c <? next_child h)%nat || mem c (closed h)); [exact H|].
  rewrite fst_seq. apply (pinv_log h line) in H. revert H. generalize (fst (log h line)). intros h1 H.
  destruct (find_waiter c (waiting h1)) as [[]|]; [exact H| |exact H].
  destruct (lastConfigureParams _); [apply pinv_configure|]; exact H.
Qed.

Lemma pinv_step : forall h ev, pinv h -> pinv (fst (step h ev)).
Proof.
  intros h ev H. destruct ev; cbn [step].
  - exact H.
  - apply pinv_stop, H.
  - apply pinv_configure, H.
  - apply pinv_send, H.
  - apply pinv_on_stdout_line, H.
  - apply pinv_on_stderr_line, H.
  - apply pinv_on_exit, H.
  - unfold on_ready_timeout. destruct (find_waiter _ _) as [[]|]; [exact H|apply pinv_log, H|exact H].
  - unfold on_restart_timer. destruct (restart_timers h); exact H.
  - apply pinv_on_request_timeout, H.
Qed.

Lemma pinv_run : forall evs h, pinv h -> pinv (fst (run h evs)).
Proof.
  induction evs as [|ev evs IH]; intros h H; [exact H|].
  cbn [run]. rewrite fst_seq. apply IH, pinv_step, H.
Qed.

Lemma pinv_init : forall o, pinv (init o).
Proof. intros o. split; constructor. Qed.

Lemma map_inj_in : forall {A B} (f : A -> B) l x y,
  NoDup (map f l) -> In x l -> In y l -> f x = f y -> x = y.
Proof.
  intros A B f l. induction l as [|a l IH]; intros x y Hn Hx Hy He; [destruct Hx|].
  simpl in Hn. inversion Hn as [|? ? Hna Hnl]; subst.
  destruct Hx as [<-|Hx], Hy as [<-|Hy]; auto.
  - exfalso. apply Hna. rewrite He. apply in_map, Hy.
  - exfalso. apply Hna. rewrite <- He. apply in_map, Hx.
Qed.

Lemma find_pending_absent : forall i ps,
  ~ In i (map pe_id ps) -> find_pending (JNum (Z.of_nat i)) ps = None.
Proof.
  intros i ps. induction ps as [|x ps IH]; intros Hn; [reflexivity|].
  unfold find_pending in *. simpl. simpl in Hn.
  destruct (Z.eqb_spec (Z.of_nat i) (Z.of_nat (pe_id x))) as [E|E].
  - exfalso. apply Hn. left. lia.
  - apply IH. intros Hi. apply Hn. right. exact Hi.
Qed.

Lemma run_options : forall o evs, options (fst (run (init o) evs)) = o.
Proof. intros o evs. destruct (good_run evs (init o)) as (G & _). exact G. Qed.

Lemma pinv_reachable : forall o evs, pinv (fst (run (init o) evs)).
Proof. intros o evs. apply pinv_run, pinv_init. Qed.

(** The request ids pending in [h'] were pending in [h] or handed out
    after it. *)
Definition ids_from (h h' : PluginHost) : Prop :=
  forall i, In i (ids h') -> In i (ids h) \/ nextId h <= i.

Lemma ids_from_eq : forall h h', ids h' = ids h -> ids_from h h'.
Proof. intros h h' E i Hi. left. rewrite <- E. exact Hi. Qed.

Lemma ids_from_trans : forall h1 h2 h3,
  ids_from h1 h2 -> nextId h1 <= nextId h2 -> ids_from h2 h3 -> ids_from h1 h3.
Proof.
  intros h1 h2 h3 H12 Hn H23 i Hi. destruct (H23 i Hi) as [Hi2|Hi2].
  - exact (H12 i Hi2).
  - right. lia.
Qed.

Lemma ids_log_all : forall ms h, ids (fst (log_all h ms)) = ids h.
Proof.
  induction ms as [|m ms IH]; intros h; [reflexivity|].
  cbn [log_all]. rewrite fst_seq, IH. reflexivity.
Qed.

Lemma ids_from_send : forall h m p r, ids_from h (fst (send h m p r)).
Proof.
  intros h m p r. unfold send.
  destruct (process h) as [c|]; [destruct (mem c (live h) && negb (mem c (stdin_ended h)))|];
    try (destruct r; apply ids_from_eq; reflexivity).
  intros i Hi. unfold ids in Hi. cbn [fst set_fields pending] in Hi.
  rewrite map_app in Hi. apply in_app_or in Hi as [Hi|[<-|[]]]; [left; exact Hi|right; reflexivity].
Qed.

Lemma ids_from_filter : forall h g, ids_from h (with_pending h (filter g (pending h))).
Proof.
  intros h g i Hi. left. unfold ids in *. cbn [with_pending pending] in Hi.
  apply in_map_iff in Hi as (x & <- & Hx). apply filter_In in Hx as [Hx _]. apply in_map, Hx.
Qed.

Lemma ids_reject_entry : forall h e m, ids (fst (reject_entry h e m)) = ids h.
Proof. intros h e m. unfold reject_entry. rewrite fst_seq. destruct (pe_replay e); reflexivity. Qed.

Lemma ids_from_step : forall h ev, ids_from h (fst (step h ev)).
Proof.
  intros h ev. destruct ev; cbn [step].
  - apply ids_from_eq; reflexivity.
  - apply ids_from_eq. unfold stop, ids.
    destruct (process h); cbn [fst set_fields pending]; rewrite map_map; reflexivity.
  - unfold configure. exact (ids_from_send _ _ _ _).
  - apply ids_from_send.
  - unfold on_stdout_line.
    destruct (negb (child <? next_child h)%nat || mem child (closed h)); [apply ids_from_eq; reflexivity|].
    destruct parsed as [resp|]; [|apply ids_from_eq; reflexivity].
    destruct (get resp "id") as [id|]; [|apply ids_from_eq; reflexivity].
    destruct (find_pending id (pending h)) as [e|]; [|apply ids_from_eq; reflexivity].
    pose proof (ids_from_filter h (fun x => negb (Nat.eqb (pe_id x) (pe_id e)))) as Hf.
    change (filter (fun x => negb (Nat.eqb (pe_id x) (pe_id e))) (pending h))
      with (drop_pending (pe_id e) (pending h)) in Hf.
    destruct (get resp "error") as [err|]; [|exact Hf].
    destruct (truthy err).
    + destruct (get err "message") as [[]|]; try exact Hf;
        intros i Hi; rewrite ids_reject_entry in Hi; exact (Hf i Hi).
    + destruct (get resp "result"); exact Hf.
  - unfold on_stderr_line.
    destruct (negb (child <? next_child h)%nat || mem child (closed h)); [apply ids_from_eq; reflexivity|].
    rewrite fst_seq. change (ids_from h (fst (let h1 := fst (log h line) in
      match find_waiter child (waiting h1) with
      | None => (h1, [])
      | Some who =>
          let h2 := with_waiting h1 (remove_waiter child (waiting h1)) in
          match who with
          | FromStart => (h2, [StartResolved])
          | FromRestart =>
              match lastConfigureParams h2 with
              | Some p => configure h2 p true
              | None => (h2, [])
              end
          end
      end))).
    assert (E : ids h = ids (fst (log h line)) /\ nextId h = nextId (fst (log h line))) by (split; reflexivity).
    generalize dependent (fst (log h line)). intros h1 [E1 E2]. cbv zeta.
    destruct (find_waiter child (waiting h1)) as [[]|]; try (apply ids_from_eq; rewrite E1; reflexivity).
    destruct (lastConfigureParams _) as [p|]; [|apply ids_from_eq; rewrite E1; reflexivity].
    intros i Hi. destruct (ids_from_send _ _ _ _ i Hi) as [Hj|Hj];
      [left; rewrite E1; exact Hj|right; rewrite E2; exact Hj].
  - destruct (mem child (live h)) eqn:Hl.
    + destruct (exit_shape h child code Hl) as (E1 & _). intros i Hi.
      unfold ids in Hi. rewrite E1 in Hi. destruct Hi.
    + unfold on_exit. rewrite Hl. apply ids_from_eq; reflexivity.
  - unfold on_ready_timeout. destruct (find_waiter _ _) as [[]|]; apply ids_from_eq; reflexivity.
  - unfold on_restart_timer. destruct (restart_timers h); apply ids_from_eq; reflexivity.
  - unfold on_request_timeout. destruct (find _ (pending h)) as [e|]; [|apply ids_from_eq; reflexivity].
    intros i Hi. rewrite ids_reject_entry in Hi. exact (ids_from_filter h _ i Hi).
Qed.

Lemma ids_from_run : forall evs h, ids_from h (fst (run h evs)).
Proof.
  induction evs as [|ev evs IH]; intros h; [apply ids_from_eq; reflexivity|].
  cbn [run]. rewrite fst_seq. apply ids_from_trans with (fst (step h ev)).
  - apply ids_from_step.
  - destruct (good_step h ev) as (_ & G & _). exact G.
  - apply IH.
Qed.

(** X5: a request still pending in a host started from [init] whose timer
    fires is rejected with "Request timed out after <timeout>ms: <method>"
    and leaves the [pending] map; a response to it arriving on the child's
    stdout at any later time, whatever events came in between, is ignored. *)
Theorem request_timeout_rejects : forall o evs h e,
  h = fst (run (init o) evs) -> In e (pending h) -> pe_armed e = true ->
  let r := on_request_timeout h (pe_id e) in
  (exists rest, snd r = Rejected (pe_id e)
      ("Request timed out after " ++ z_to_dec (timeout o) ++ "ms: " ++ pe_method e) :: rest) /\
  pending (fst r) = drop_pending (pe_id e) (pending h) /\
  (forall evs' c line resp, get resp "id" = Ok (JNum (Z.of_nat (pe_id e))) ->
     let h' := fst (run (fst r) evs') in
     on_stdout_line h' c line (Some resp) = (h', [])).
Proof.
  intros o evs h e Hh Hin Ha r. subst r.
  assert (Hp : pinv h) by (subst h; apply pinv_reachable).
  assert (Ho : options h = o) by (subst h; apply run_options).
  clear Hh. unfold on_request_timeout.
  destruct (find (fun x => Nat.eqb (pe_id x) (pe_id e) && pe_armed x) (pending h)) as [e'|] eqn:Hf.
  - apply find_some in Hf as [Hin' Hq]. apply andb_true_iff in Hq as [Hq _].
    apply Nat.eqb_eq in Hq.
    assert (e' = e) by (apply (map_inj_in pe_id (pending h)); [apply Hp|assumption|assumption|exact Hq]).
    subst e'. rewrite Ho.
    set (h1 := with_pending h (drop_pending (pe_id e) (pending h))).
    set (m := "Request timed out after " ++ z_to_dec (timeout o) ++ "ms: " ++ pe_method e).
    assert (Hpend : pending (fst (reject_entry h1 e m)) = drop_pending (pe_id e) (pending h)).
    { unfold reject_entry. rewrite fst_seq. destruct (pe_replay e); reflexivity. }
    split; [|split; [exact Hpend|]].
    + unfold reject_entry, Host.seq. destruct (pe_replay e).
      * destruct (log h1 (restart_failed m)). eexists. reflexivity.
      * eexists. reflexivity.
    + intros evs' c line resp Hid. cbv zeta.
      assert (Hlt : pe_id e < nextId (fst (reject_entry h1 e m))).
      { unfold reject_entry. rewrite fst_seq.
        destruct Hp as [_ Hp]. rewrite Forall_forall in Hp.
        assert (pe_id e < nextId h) by (apply Hp, in_map, Hin).
        destruct (pe_replay e); exact H. }
      assert (Hgone : ~ In (pe_id e) (ids (fst (reject_entry h1 e m)))).
      { unfold ids. rewrite Hpend. intros Hi. apply in_map_iff in Hi as (y & Hy & Hy2).
        unfold drop_pending in Hy2. apply filter_In in Hy2 as [_ Hy2].
        rewrite Hy, Nat.eqb_refl in Hy2. discriminate. }
      unfold on_stdout_line.
      destruct (negb (c <? next_child _)%nat || mem c (closed _)); [reflexivity|].
      rewrite Hid, find_pending_absent; [reflexivity|].
      intros Hi. destruct (ids_from_run evs' _ (pe_id e) Hi) as [Hi'|Hi'];
        [exact (Hgone Hi')|lia].
  - exfalso. apply find_none with (x := e) in Hf; [|exact Hin].
    rewrite Nat.eqb_refl, Ha in Hf. discriminate.
Qed.

(** X6: after [stop()] the host is not running, the pending requests stay
    in the map but their timers are cleared, so no request timer fires. *)
Theorem stop_disarms : forall h id,
  let h' := fst (stop h) in
  isRunning h' = false /\ stopped h' = true /\
  map pe_id (pending h') = map pe_id (pending h) /\
  on_request_timeout h' id = (h', []).
Proof.
  intros h id h'. subst h'.
  assert (Hd : forall ps, find (fun x => Nat.eqb (pe_id x) id && pe_armed x)
     (map (fun e => {| pe_id := pe_id e; pe_method := pe_method e;
                       pe_armed := false; pe_replay := pe_replay e |}) ps) = None).
  { induction ps as [|x ps IH]; [reflexivity|]. simpl. rewrite andb_false_r. exact IH. }
  unfold stop, on_request_timeout, isRunning.
  destruct (process h); cbn [fst set_fields pending process stopped];
    rewrite Hd, map_map; repeat split.
Qed.

(** X1: from a fresh host, the requests written to the children carry the
    ids 1, 2, 3, ... in order, each id once. *)
Theorem request_ids_consecutive : forall o evs,
  let r := run (init o) evs in
  req_ids (snd r) = List.seq 1 (nextId (fst r) - 1) /\ NoDup (req_ids (snd r)).
Proof.
  intros o evs r. destruct (good_run evs (init o)) as (_ & _ & G & _).
  fold r in G. cbn [nextId init] in G. rewrite G. split; [reflexivity|apply seq_NoDup].
Qed.

(** X3: whatever happens, the log only grows: [getLogs()] after any events
    starts with [getLogs()] before them. *)
Theorem logs_append_only : forall h evs,
  exists l, getLogs (fst (run h evs)) = app (getLogs h) l.
Proof. intros h evs. destruct (good_run evs h) as (_ & _ & _ & _ & _ & G). exact G. Qed.

(** X4: when a child that has not exited yet exits, every pending request is
    rejected, in order, with "Plugin process exited with code <code>", the
    map is emptied and [this.process] is kept; after [stop()] no restart is
    scheduled. *)
Theorem exit_rejects_pending : forall h c code,
  mem c (live h) = true ->
  let r := on_exit h c code in
  pending (fst r) = [] /\ process (fst r) = process h /\
  filter is_rejected (snd r) =
    map (fun e => Rejected (pe_id e) ("Plugin process exited with code " ++ code_str code)) (pending h) /\
  (stopped h = true ->
     restart_timers (fst r) = restart_timers h /\ filter is_restart_effect (snd r) = []).
Proof. intros h c code Hl. exact (exit_shape h c code Hl). Qed.

(** A host started with the default options whose child is ready and has
    been sent one [fetchSensors] request. *)
Definition events_w : list Event := [Start; StderrLine 0 "ready"; Send "fetchSensors" NoParams].

Definition host_w : PluginHost := fst (run (init (default_options None None)) events_w).

Definition entry_w : PendingEntry :=
  {| pe_id := 1; pe_method := "fetchSensors"; pe_armed := true; pe_replay := false |}.

Lemma exit_rejects_pending_witness :
  mem 0 (live host_w) = true /\ pending (fst (on_exit host_w 0 (Some 1%Z))) = [].
Proof.
  split; [vm_compute; reflexivity|].
  exact (proj1 (exit_rejects_pending host_w 0 (Some 1%Z) ltac:(vm_compute; reflexivity))).
Defined.

Lemma request_timeout_rejects_witness :
  In entry_w (pending host_w) /\
  pending (fst (on_request_timeout host_w (pe_id entry_w))) = drop_pending (pe_id entry_w) (pending host_w).
Proof.
  split; [vm_compute; left; reflexivity|].
  exact (proj1 (proj2 (request_timeout_rejects (default_options None None) events_w host_w entry_w
           eq_refl ltac:(vm_compute; left; reflexivity) eq_refl))).
Defined.

End HostExtraProofs.

Module HostCtorProofs.
Import Js HostCtor.

Lemma assoc_set_prop : forall k k' v fs,
  assoc k (set_prop k' v fs) = if String.eqb k k' then Some v else assoc k fs.
Proof.
  intros k k' v fs. induction fs as [|[k1 x] fs IH]; cbn [set_prop assoc].
  - destruct (String.eqb k k'); reflexivity.
  - destruct (String.eqb_spec k' k1) as [->|Ne]; cbn [assoc].
    + destruct (String.eqb k k1); reflexivity.
    + rewrite IH. destruct (String.eqb_spec k k1) as [->|Ne2]; [|reflexivity].
      destruct (String.eqb_spec k1 k') as [->|]; [congruence|reflexivity].
Qed.

Lemma assoc_notin : forall k fs, ~ In k (map fst fs) -> assoc k fs = None.
Proof.
  intros k fs. induction fs as [|[k1 x] fs IH]; intros Hn; [reflexivity|].
  simpl in *. destruct (String.eqb_spec k k1) as [->|]; [exfalso; apply Hn; left; reflexivity|].
  apply IH. intros H; apply Hn; right; exact H.
Qed.

Lemma assoc_spread : forall src dst k,
  NoDup (map fst src) ->
  assoc k (spread dst src) = match assoc k src with Some v => Some v | None => assoc k dst end.
Proof.
  unfold spread. induction src as [|[k1 v1] src IH]; intros dst k Hn; [reflexivity|].
  simpl in Hn. inversion Hn as [|? ? Hn1 Hn2]; subst. cbn [fold_left fst snd].
  rewrite IH by exact Hn2. rewrite assoc_set_prop. simpl.
  destruct (String.eqb_spec k k1) as [->|]; [|reflexivity].
  rewrite assoc_notin by exact Hn1. reflexivity.
Qed.

(** X7: the options object the constructor keeps: for [timeout],
    [maxRestarts] and [restartDelayMs] the caller's own property whenever it
    is present (even [undefined] or [null]), the default otherwise; every
    other key as the caller gave it. *)
Theorem constructor_options_spec : forall options,
  NoDup (map fst options) ->
  (forall k d, In (k, d) [("timeout", JNum 30000); ("maxRestarts", JNum 3);
                          ("restartDelayMs", JNum 1000)] ->
     assoc k (constructor_options options) =
       Some (match assoc k options with Some v => v | None => d end)) /\
  (forall k, k <> "timeout" -> k <> "maxRestarts" -> k <> "restartDelayMs" ->
     assoc k (constructor_options options) = assoc k options).
Proof.
  intros options Hn. unfold constructor_options. split.
  - intros k d Hin. rewrite assoc_spread by exact Hn.
    destruct (assoc k options) eqn:E; [reflexivity|].
    simpl in Hin. destruct Hin as [Hk|[Hk|[Hk|[]]]]; inversion Hk; subst;
      cbn; unfold prop; rewrite E; reflexivity.
  - intros k H1 H2 H3. rewrite assoc_spread by exact Hn.
    destruct (assoc k options); [reflexivity|]. simpl.
    destruct (String.eqb_spec k "timeout"); [contradiction|].
    destruct (String.eqb_spec k "maxRestarts"); [contradiction|].
    destruct (String.eqb_spec k "restartDelayMs"); [contradiction|reflexivity].
Qed.

Lemma constructor_options_spec_witness :
  NoDup (map fst [("timeout", JNull); ("onLog", JBool true)]) /\
  assoc "timeout" (constructor_options [("timeout", JNull); ("onLog", JBool true)]) = Some JNull.
Proof.
  split; [repeat constructor; simpl; intuition discriminate|].
  apply (proj1 (constructor_options_spec [("timeout", JNull); ("onLog", JBool true)]
            ltac:(repeat constructor; simpl; intuition discriminate)) "timeout" (JNum 30000)).
  simpl; auto.
Defined.

End HostCtorProofs.

Module HostFsProofs.
Import Js Discovery HostFs.

Definition rpc_candidate (p : list string) (n : nat) : list string :=
  app (firstn n p) rpcRelative.

Lemma firstn_snoc_le : forall (p : list string) x m,
  m <= List.length p -> firstn m (app p [x]) = firstn m p.
Proof.
  intros p x m Hm. rewrite firstn_app.
  replace (m - List.length p) with 0 by lia. rewrite app_nil_r. reflexivity.
Qed.

(** X8: [findRpcHost] returns the script under the deepest directory on the
    way from [pluginPath] up to the root (excluded) whose [node_modules]
    holds it, and [null] when no such directory exists. *)
Theorem findRpcHost_spec : forall fs p,
  match findRpcHost fs p with
  | Some cand =>
      exists n, 1 <= n <= List.length p /\ cand = rpc_candidate p n /\
        existsSync fs cand = true /\
        (forall m, n < m <= List.length p -> existsSync fs (rpc_candidate p m) = false)
  | None => forall m, 1 <= m <= List.length p -> existsSync fs (rpc_candidate p m) = false
  end.
Proof.
  intros fs p. unfold findRpcHost. induction p as [|x q IH] using rev_ind.
  - intros m Hm. simpl in Hm. lia.
  - rewrite rev_unit. cbn [walk_up rev]. rewrite rev_involutive, length_app. cbn [List.length].
    assert (Hall : rpc_candidate (app q [x]) (List.length q + 1) = app (app q [x]) rpcRelative).
    { unfold rpc_candidate. rewrite firstn_all2; [reflexivity|rewrite length_app; simpl; lia]. }
    assert (Hle : forall m, m <= List.length q -> rpc_candidate (app q [x]) m = rpc_candidate q m).
    { intros m Hm. unfold rpc_candidate. rewrite firstn_snoc_le by exact Hm. reflexivity. }
    destruct (existsSync fs (app (app q [x]) rpcRelative)) eqn:E.
    + exists (List.length q + 1). split; [lia|]. split; [symmetry; exact Hall|].
      split; [exact E|]. intros m Hm. lia.
    + destruct (walk_up fs (rev q)) as [cand|].
      * destruct IH as (n & Hn & Hc & He & Hm). exists n. split; [lia|].
        split; [rewrite Hle by lia; exact Hc|]. split; [exact He|].
        intros m Hm'. destruct (Nat.eq_dec m (List.length q + 1)) as [->|Hne].
        -- rewrite Hall. exact E.
        -- rewrite Hle by lia. apply Hm. lia.
      * intros m Hm. destruct (Nat.eq_dec m (List.length q + 1)) as [->|Hne].
        -- rewrite Hall. exact E.
        -- rewrite Hle by lia. apply IH. lia.
Qed.

(** X9: when discovery loads a plugin from [dirPath], [start] on the same
    directory resolves the same entry. *)
Theorem start_entry_agrees : forall fs dirPath p,
  tryLoadPlugin fs dirPath = Some p -> start_entry fs dirPath = Some (entry p).
Proof.
  intros fs d p H. unfold tryLoadPlugin in H. unfold start_entry.
  destruct (negb (existsSync fs (app d ["package.json"]))); [discriminate|].
  destruct (lookup fs (app d ["package.json"])) as [[[pkg|]| |l es]|]; try discriminate.
  cbn [res_option bind] in *.
  destruct (get pkg "junctionrelay") as [jr|]; cbn [bind] in *; [|discriminate].
  destruct (truthy jr) eqn:Ht; cbn [negb] in H; [|discriminate].
  destruct (get jr "type") as [t|]; cbn [bind] in *; [|discriminate].
  destruct (negb (same_value_zero t (JStr "collector"))); [discriminate|].
  assert (Hjr : match jr with JUndef | JNull => Ok JUndef | _ => get jr "entry" end = get jr "entry")
    by (destruct jr; try reflexivity; discriminate).
  rewrite Hjr.
  destruct (get jr "entry") as [e|]; cbn [bind] in *; [|discriminate].
  destruct (get pkg "main") as [m|]; cbn [bind] in *; [|discriminate].
  destruct (get pkg "name"); cbn [bind] in *; [|discriminate].
  destruct (get pkg "version"); cbn [bind] in *; [|discriminate].
  inversion H. reflexivity.
Qed.

(** A plugin directory whose [package.json] names its entry in [main]. *)
Definition fs_w : node :=
  Dir true [("p", Dir true [("package.json",
    File (Some (JObj [("name", JStr "p"); ("main", JStr "dist/index.js");
                      ("junctionrelay", JObj [("type", JStr "collector")])])))])].

Definition plugin_w : DiscoveredPlugin :=
  {| name := JStr "p"; version := JStr "0.0.0"; path := ["p"];
     entry := JStr "dist/index.js"; manifest := JObj [("type", JStr "collector")] |}.

Lemma start_entry_agrees_witness :
  tryLoadPlugin fs_w ["p"] = Some plugin_w /\ start_entry fs_w ["p"] = Some (JStr "dist/index.js").
Proof.
  split; [vm_compute; reflexivity|].
  apply (start_entry_agrees fs_w ["p"] plugin_w). vm_compute. reflexivity.
Defined.

End HostFsProofs.

Module DiscoveryExtraProofs.
Import Js Discovery.

Lemma tryLoadPlugin_path : forall fs d p, tryLoadPlugin fs d = Some p -> path p = d.
Proof.
  intros fs d p H. unfold tryLoadPlugin in H.
  destruct (negb (existsSync fs (app d ["package.json"]))); [discriminate|].
  destruct (lookup fs (app d ["package.json"])) as [[[pkg|]| |l es]|]; try discriminate.
  cbn [res_option bind] in H.
  destruct (get pkg "junctionrelay") as [jr|]; cbn [bind] in H; [|discriminate].
  destruct (negb (truthy jr)); [discriminate|].
  destruct (get jr "type"); cbn [bind] in H; [|discriminate].
  destruct (negb (same_value_zero _ _)); [discriminate|].
  destruct (get jr "entry"); cbn [bind] in H; [|discriminate].
  destruct (get pkg "main"); cbn [bind] in H; [|discriminate].
  destruct (get pkg "name"); cbn [bind] in H; [|discriminate].
  destruct (get pkg "version"); cbn [bind] in H; [|discriminate].
  inversion H. reflexivity.
Qed.

Lemma load_all_paths : forall fs ds,
  map path (load_all fs ds) =
  filter (fun d => match tryLoadPlugin fs d with Some _ => true | None => false end) ds.
Proof.
  intros fs ds. induction ds as [|d ds IH]; [reflexivity|].
  unfold load_all in *. cbn [flat_map filter].
  destruct (tryLoadPlugin fs d) as [p|] eqn:E; [|exact IH].
  cbn [app map]. rewrite (tryLoadPlugin_path fs d p E), IH. reflexivity.
Qed.

Lemma NoDup_map_snoc : forall (pre : list string) l,
  NoDup l -> NoDup (map (fun e => app pre [e]) l).
Proof.
  intros pre l H. induction H as [|x l Hx Hl IH]; cbn [map]; constructor; [|exact IH].
  intros Hin. apply in_map_iff in Hin as (y & Hy & Hy2).
  apply app_inj_tail in Hy as [_ ->]. contradiction.
Qed.

Lemma group_paths : forall fs pre (P : string -> bool) names,
  NoDup names ->
  NoDup (map path (load_all fs (map (fun e => app pre [e]) (filter P names)))) /\
  (forall d, In d (map path (load_all fs (map (fun e => app pre [e]) (filter P names)))) ->
     List.length d = List.length pre + 1).
Proof.
  intros fs pre P names Hn. rewrite load_all_paths. split.
  - apply NoDup_filter, NoDup_map_snoc, NoDup_filter, Hn.
  - intros d Hd. apply filter_In in Hd as [Hd _]. apply in_map_iff in Hd as (e & <- & _).
    rewrite length_app. reflexivity.
Qed.

Lemma guarded_group : forall fs dir pre (P : string -> bool),
  NoDup (safeReaddir fs dir) ->
  let g := if existsSync fs dir
           then load_all fs (map (fun e => app pre [e]) (filter P (safeReaddir fs dir))) else [] in
  NoDup (map path g) /\ (forall d, In d (map path g) -> List.length d = List.length pre + 1).
Proof.
  intros fs dir pre P Hn g. subst g. destruct (existsSync fs dir).
  - apply group_paths, Hn.
  - split; [constructor|intros d []].
Qed.

(** X10: when no directory listing repeats a name, no two plugins that
    [discoverPlugins] returns share a path: the direct children, the
    [@junctionrelay] scope and [node_modules] give paths of different
    lengths, and each listing gives distinct names. *)
Theorem discoverPlugins_paths_distinct : forall fs root,
  NoDup (safeReaddir fs root) ->
  NoDup (safeReaddir fs (app root ["node_modules"; "@junctionrelay"])) ->
  NoDup (safeReaddir fs (app root ["node_modules"])) ->
  NoDup (map path (discoverPlugins fs root)).
Proof.
  intros fs root H1 H2 H3. unfold discoverPlugins.
  destruct (guarded_group fs root root (fun _ => true) H1) as [D1 L1].
  destruct (guarded_group fs _ (app root ["node_modules"; "@junctionrelay"])
              (String.prefix "plugin-") H2) as [D2 L2].
  destruct (guarded_group fs _ (app root ["node_modules"])
              (String.prefix "junctionrelay-plugin-") H3) as [D3 L3].
  rewrite filter_true in D1, L1.
  rewrite length_app in L2, L3. cbn [List.length] in L2, L3.
  rewrite !map_app. apply NoDup_app; [exact D1| |].
  - apply NoDup_app; [exact D2|exact D3|].
    intros d Hd Hd'. apply L2 in Hd. apply L3 in Hd'. lia.
  - intros d Hd Hd'. apply L1 in Hd. apply in_app_or in Hd' as [Hd'|Hd'];
      [apply L2 in Hd'|apply L3 in Hd']; lia.
Qed.

Lemma discoverPlugins_paths_distinct_witness :
  List.length (discoverPlugins DiscoveryProofs.test_fs ["plugins"]) = 3 /\
  NoDup (map path (discoverPlugins DiscoveryProofs.test_fs ["plugins"])).
Proof.
  split; [vm_compute; reflexivity|].
  apply discoverPlugins_paths_distinct; vm_compute; repeat constructor; simpl; intuition discriminate.
Defined.

End DiscoveryExtraProofs.

Module DecimalPlacesProofs.
Import QArith_base Qround.
Import DecimalPlaces.

Lemma sanitize_integer : forall k, (0 <= k <= 15)%Z ->
  sanitizeDecimalPlaces (NFin (inject_Z k)) = NFin (inject_Z k).
Proof.
  intros k Hk. unfold sanitizeDecimalPlaces, lt_fin, gt_fin, math_floor, MAX_DECIMAL_PLACES.
  assert (H0 : Qle_bool 0 (inject_Z k) = true).
  { apply Qle_bool_iff. change 0%Q with (inject_Z 0). rewrite <- Zle_Qle. lia. }
  assert (H15 : Qle_bool (inject_Z k) (inject_Z 15) = true).
  { apply Qle_bool_iff. rewrite <- Zle_Qle. lia. }
  rewrite H0, H15. cbn [negb]. rewrite Qfloor_Z. reflexivity.
Qed.

Lemma sanitize_range : forall d,
  match sanitizeDecimalPlaces d with
  | NNaN => d = NNaN
  | NFin q => exists k, q = inject_Z k /\ (0 <= k <= 15)%Z
  | _ => False
  end.
Proof.
  intros d. unfold sanitizeDecimalPlaces, lt_fin, gt_fin, math_floor, MAX_DECIMAL_PLACES.
  destruct d as [| | |q]; cbn [negb].
  - reflexivity.
  - exists 15%Z. split; [reflexivity|lia].
  - exists 0%Z. split; [reflexivity|lia].
  - destruct (Qle_bool 0 q) eqn:E0; cbn [negb].
    + destruct (Qle_bool q (inject_Z 15)) eqn:E15; cbn [negb].
      * exists (Qfloor q). split; [reflexivity|].
        apply Qle_bool_iff in E0, E15. split.
        -- rewrite <- (Qfloor_Z 0). apply Qfloor_resp_le. exact E0.
        -- rewrite <- (Qfloor_Z 15). apply Qfloor_resp_le. exact E15.
      * exists 15%Z. split; [reflexivity|lia].
    + exists 0%Z. split; [reflexivity|lia].
Qed.

Lemma sanitize_clamps : forall q,
  ((q < 0)%Q -> sanitizeDecimalPlaces (NFin q) = NFin (inject_Z 0)) /\
  ((inject_Z MAX_DECIMAL_PLACES < q)%Q ->
     sanitizeDecimalPlaces (NFin q) = NFin (inject_Z MAX_DECIMAL_PLACES)) /\
  ((0 <= q)%Q /\ (q <= inject_Z MAX_DECIMAL_PLACES)%Q ->
     sanitizeDecimalPlaces (NFin q) = NFin (inject_Z (Qfloor q))).
Proof.
  intros q. unfold sanitizeDecimalPlaces, lt_fin, gt_fin, math_floor, MAX_DECIMAL_PLACES.
  split; [|split].
  - intros Hq. destruct (Qle_bool 0 q) eqn:E0; [|reflexivity].
    apply Qle_bool_iff in E0. exfalso. exact (Qlt_not_le _ _ Hq E0).
  - intros Hq. destruct (Qle_bool 0 q) eqn:E0; cbn [negb].
    + destruct (Qle_bool q (inject_Z 15)) eqn:E15; [|reflexivity].
      apply Qle_bool_iff in E15. exfalso. exact (Qlt_not_le _ _ Hq E15).
    + exfalso. apply Bool.not_true_iff_false in E0. apply E0, Qle_bool_iff.
      apply Qlt_le_weak. apply Qlt_trans with (inject_Z 15); [|exact Hq].
      reflexivity.
  - intros [H0 H15]. apply Qle_bool_iff in H0, H15. rewrite H0, H15. reflexivity.
Qed.

(** X11: [sanitizeDecimalPlaces] turns every number but NaN into an integer
    from 0 to [MAX_DECIMAL_PLACES] (15): negative values and [-Infinity]
    give 0, values above 15 and [Infinity] give 15, values from 0 to 15 are
    rounded down ([Math.floor]); NaN is passed through as NaN
    ([Math.floor(NaN)]), and it is the only input giving NaN. *)
Theorem sanitizeDecimalPlaces_range : forall d,
  (sanitizeDecimalPlaces d = NNaN <-> d = NNaN) /\
  (d <> NNaN -> exists k, sanitizeDecimalPlaces d = NFin (inject_Z k) /\
                          (0 <= k <= MAX_DECIMAL_PLACES)%Z) /\
  (d = NNegInf \/ (exists q, d = NFin q /\ (q < 0)%Q) ->
     sanitizeDecimalPlaces d = NFin (inject_Z 0)) /\
  (d = NPosInf \/ (exists q, d = NFin q /\ (inject_Z MAX_DECIMAL_PLACES < q)%Q) ->
     sanitizeDecimalPlaces d = NFin (inject_Z MAX_DECIMAL_PLACES)) /\
  (forall q, d = NFin q -> (0 <= q)%Q -> (q <= inject_Z MAX_DECIMAL_PLACES)%Q ->
     sanitizeDecimalPlaces d = NFin (inject_Z (Qfloor q))).
Proof.
  intros d. pose proof (sanitize_range d) as H. split; [|split; [|split; [|split]]].
  - split; [intros E; rewrite E in H; exact H|intros ->; reflexivity].
  - intros Hn. destruct (sanitizeDecimalPlaces d) as [| | |q]; try contradiction.
    destruct H as (k & -> & Hk). exists k. split; [reflexivity|exact Hk].
  - intros [->|(q & -> & Hq)]; [reflexivity|exact (proj1 (sanitize_clamps q) Hq)].
  - intros [->|(q & -> & Hq)]; [reflexivity|exact (proj1 (proj2 (sanitize_clamps q)) Hq)].
  - intros q -> H0 H15. exact (proj2 (proj2 (sanitize_clamps q)) (conj H0 H15)).
Qed.

Lemma sanitizeDecimalPlaces_range_witness :
  sanitizeDecimalPlaces (NFin (Qmake 7 2)) = NFin (inject_Z 3) /\
  (exists k, sanitizeDecimalPlaces (NFin (Qmake (-7) 2)) = NFin (inject_Z k) /\
             (0 <= k <= MAX_DECIMAL_PLACES)%Z) /\
  sanitizeDecimalPlaces (NFin (Qmake (-7) 2)) = NFin (inject_Z 0) /\
  sanitizeDecimalPlaces (NFin (inject_Z 40)) = NFin (inject_Z MAX_DECIMAL_PLACES) /\
  sanitizeDecimalPlaces (NFin (Qmake 7 2)) = NFin (inject_Z (Qfloor (Qmake 7 2))).
Proof.
  split; [vm_compute; reflexivity|]. split; [|split; [|split]].
  - apply (proj1 (proj2 (sanitizeDecimalPlaces_range (NFin (Qmake (-7) 2))))). discriminate.
  - apply (proj1 (proj2 (proj2 (sanitizeDecimalPlaces_range (NFin (Qmake (-7) 2)))))).
    right. exists (Qmake (-7) 2). split; [reflexivity|vm_compute; reflexivity].
  - apply (proj1 (proj2 (proj2 (proj2 (sanitizeDecimalPlaces_range (NFin (inject_Z 40))))))).
    right. exists (inject_Z 40). split; [reflexivity|vm_compute; reflexivity].
  - apply (proj2 (proj2 (proj2 (proj2 (sanitizeDecimalPlaces_range (NFin (Qmake 7 2))))))
      (Qmake 7 2) eq_refl); vm_compute; discriminate.
Defined.

(** X12: a whole number of decimal places from 0 to 15 is kept as it is, and
    sanitizing twice gives what sanitizing once gives. *)
Theorem sanitizeDecimalPlaces_keeps_valid : forall k,
  (0 <= k <= MAX_DECIMAL_PLACES)%Z ->
  sanitizeDecimalPlaces (NFin (inject_Z k)) = NFin (inject_Z k) /\
  (forall d, sanitizeDecimalPlaces (sanitizeDecimalPlaces d) = sanitizeDecimalPlaces d).
Proof.
  intros k Hk. split; [apply sanitize_integer, Hk|].
  intros d. pose proof (sanitize_range d) as H.
  destruct (sanitizeDecimalPlaces d) as [| | |q]; try contradiction.
  - reflexivity.
  - destruct H as (k' & -> & Hk'). apply sanitize_integer, Hk'.
Qed.

Lemma sanitizeDecimalPlaces_keeps_valid_witness :
  sanitizeDecimalPlaces (NFin (inject_Z 2)) = NFin (inject_Z 2).
Proof. apply (proj1 (sanitizeDecimalPlaces_keeps_valid 2 ltac:(unfold MAX_DECIMAL_PLACES; lia))). Defined.

End DecimalPlacesProofs.

Module DispatcherExtraProofs.
Import Js Dispatcher JsProofs.

Lemma emit_one : forall st r,
  List.length (out_stdout (emit st r)) + List.length (out_stderr (emit st r)) = 1 /\
  out_state (emit st r) = st.
Proof. intros st [line|e]; split; reflexivity. Qed.

Lemma dispatch_state : forall cfg now method params st,
  snd (dispatch cfg now method params st) =
  match method with
  | JStr m => if String.eqb m "configure" then set_currentConfig st params else st
  | _ => st
  end.
Proof.
  intros cfg now method params st. unfold dispatch.
  destruct method as [| | | | |m| | |];
    try (cbn; destruct (configure cfg), (fetchSensors cfg), (fetchSelectedSensors cfg),
           (testConnection cfg), (startSession cfg), (stopSession cfg); reflexivity).
  destruct (String.eqb m "configure") eqn:Hc.
  - apply String.eqb_eq in Hc. subst m. cbn. destruct (configure cfg); reflexivity.
  - cbn [andb].
    destruct (fetchSensors cfg), (fetchSelectedSensors cfg), (testConnection cfg),
      (startSession cfg), (stopSession cfg);
      repeat (match goal with |- context [if String.eqb m ?x then _ else _] => destruct (String.eqb m x) end);
      reflexivity.
Qed.

(** X14: a line changes the plugin's state only when it is a request whose
    [method] is ["configure"]: then [currentConfig] becomes [params ?? {}],
    before the handler runs, so even when the handler rejects; [startTime]
    never changes. *)
Theorem handleLine_state : forall cfg now st parsed,
  out_state (handleLine cfg now st parsed) =
  match parsed with
  | Some request =>
      match get request "method", get request "params" with
      | Ok (JStr m), Ok params =>
          if String.eqb m "configure" then set_currentConfig st (nullish params (JObj []))
          else st
      | _, _ => st
      end
  | None => st
  end.
Proof.
  intros cfg now st [request|]; [|reflexivity].
  unfold handleLine.
  destruct (get request "method") as [method|e].
  2: { destruct (bind (Exn e) _); rewrite (proj2 (emit_one _ _));
       destruct (get request "params"); reflexivity. }
  destruct (get request "params") as [params|e].
  2: { destruct (bind (Exn e) _); rewrite (proj2 (emit_one _ _)); destruct method; reflexivity. }
  pose proof (dispatch_state cfg now method (nullish params (JObj [])) st) as Hs.
  destruct (dispatch cfg now method (nullish params (JObj [])) st) as [r st'].
  cbn [snd] in Hs. subst st'.
  destruct (bind r _); rewrite (proj2 (emit_one _ _)); destruct method; reflexivity.
Qed.


(** X15: when the routed handler rejects with an [Error], the request is
    answered with an error response carrying the request's [id], the
    Error's [code] when it is a number and [-32000] otherwise, and the
    Error's [message]. *)
Theorem handler_error_response : forall cfg now st request method params idv name msg props,
  get request "method" = Ok method -> get request "params" = Ok params ->
  get request "id" = Ok idv ->
  fst (dispatch cfg now method (nullish params (JObj [])) st) = Exn (JErr name msg props) ->
  handleLine cfg now st (Some request) =
    emit (snd (dispatch cfg now method (nullish params (JObj [])) st))
      (writeResponse (JObj [("jsonrpc", JStr "2.0"); ("id", idv);
         ("error", JObj [("code", match assoc "code" props with
                                  | Some (JNum z) => JNum z
                                  | _ => JNum SERVER_ERROR end);
                         ("message", match assoc "message" props with
                                     | Some m => m
                                     | None => JStr msg end)])])).
Proof.
  intros cfg now st request method params idv name msg props Hm Hp Hi Hd.
  unfold handleLine. rewrite Hm, Hp.
  destruct (dispatch cfg now method (nullish params (JObj [])) st) as [r st'].
  cbn [fst snd] in *. subst r. cbn [bind get]. rewrite Hi. cbn [bind].
  destruct (assoc "code" props) as [c|]; [destruct c; reflexivity|reflexivity].
Qed.

(** X16: when the handler's result cannot be serialised (it holds a BigInt),
    no result is written: the request is answered with a [-32000] error
    response with the [TypeError]'s message, under the request's [id]. *)
Theorem unserializable_result_response : forall cfg now st request method params idv ido result e,
  get request "method" = Ok method -> get request "params" = Ok params ->
  get request "id" = Ok idv -> ser idv = Ok ido ->
  fst (dispatch cfg now method (nullish params (JObj [])) st) = Ok result ->
  ser result = Exn e ->
  handleLine cfg now st (Some request) =
    {| out_state := snd (dispatch cfg now method (nullish params (JObj [])) st);
       out_stdout := [sq "{'jsonrpc':'2.0'," ++ id_member ido ++
          sq "'error':{'code':-32000,'message':'Do not know how to serialize a BigInt'}}" ++ newline];
       out_stderr := [] |}.
Proof.
  intros cfg now st request method params idv ido result e Hm Hp Hi Hs Hd Hr.
  pose proof (ser_exn result e Hr) as He. subst e.
  unfold handleLine. rewrite Hm, Hp.
  destruct (dispatch cfg now method (nullish params (JObj [])) st) as [r st'].
  cbn [fst snd] in *. subst r. cbn [bind]. rewrite Hi. cbn [bind].
  unfold writeResponse, stringify. cbn [ser bind]. rewrite Hs. cbn [bind]. rewrite Hr.
  cbn [bind]. unfold bigint_error, type_error.
  destruct ido; simpl; rewrite ?str_app_assoc; reflexivity.
Qed.

(** A configuration whose [fetchSensors] handler gives [v]. *)
Definition cfg_fetch (v : Res jsval) : CollectorPluginConfig :=
  {| metadata := JObj [("collectorName", JStr "test.plugin")];
     configure := None;
     fetchSensors := Some (fun _ => v);
     fetchSelectedSensors := None;
     testConnection := None; startSession := None; stopSession := None |}.

Definition st_w : CollectorPlugin := {| startTime := 0; currentConfig := JObj [] |}.

Definition fetch_request : jsval :=
  JObj [("jsonrpc", JStr "2.0"); ("method", JStr "fetchSensors"); ("params", JObj []);
        ("id", JNum 7)].

Lemma handler_error_response_witness :
  out_stdout (handleLine (cfg_fetch (Exn (JErr "Error" "boom" [("code", JNum 42)]))) 0 st_w
                (Some fetch_request))
  = [sq "{'jsonrpc':'2.0','id':7,'error':{'code':42,'message':'boom'}}" ++ newline].
Proof.
  rewrite (handler_error_response (cfg_fetch (Exn (JErr "Error" "boom" [("code", JNum 42)]))) 0 st_w
             fetch_request (JStr "fetchSensors") (JObj []) (JNum 7) "Error" "boom"
             [("code", JNum 42)] ltac:(reflexivity) ltac:(reflexivity) ltac:(reflexivity)
             ltac:(reflexivity)).
  vm_compute. reflexivity.
Defined.

Lemma unserializable_result_response_witness :
  out_stdout (handleLine (cfg_fetch (Ok (JObj [("n", JBigInt 1)]))) 0 st_w (Some fetch_request))
  = [sq "{'jsonrpc':'2.0'," ++ id_member (Some "7") ++
     sq "'error':{'code':-32000,'message':'Do not know how to serialize a BigInt'}}" ++ newline].
Proof.
  rewrite (unserializable_result_response (cfg_fetch (Ok (JObj [("n", JBigInt 1)]))) 0 st_w
             fetch_request (JStr "fetchSensors") (JObj []) (JNum 7) (Some "7")
             (JObj [("n", JBigInt 1)]) (type_error "Do not know how to serialize a BigInt")
             ltac:(reflexivity) ltac:(reflexivity) ltac:(reflexivity) ltac:(reflexivity)
             ltac:(reflexivity) ltac:(reflexivity)).
  reflexivity.
Defined.

End DispatcherExtraProofs.

(** ** Children named in the host state were spawned *)
Module HostReadinessProofs.
Import Js Host HostExtraProofs.

(** Children named in [this.process], [closed] and [waiting] were spawned. *)
Definition cinv (h : PluginHost) : Prop :=
  (forall c, process h = Some c -> c < next_child h) /\
  Forall (fun c => c < next_child h) (closed h) /\
  Forall (fun w => fst w < next_child h) (waiting h).

Lemma cinv_log : forall h m, cinv h -> cinv (fst (log h m)).
Proof. intros h m H. exact H. Qed.

Lemma cinv_log_all : forall ms h, cinv h -> cinv (fst (log_all h ms)).
Proof.
  induction ms as [|m ms IH]; intros h H; [exact H|].
  cbn [log_all]. rewrite fst_seq. apply IH, cinv_log, H.
Qed.

Lemma cinv_send : forall h m p r, cinv h -> cinv (fst (send h m p r)).
Proof.
  intros h m p r H. unfold send.
  destruct (process h) as [c|] eqn:Ep.
  - destruct (mem c (live h) && negb (mem c (stdin_ended h))).
    + destruct H as (H1 & H2 & H3). unfold cinv.
      cbn [fst set_fields process closed waiting next_child].
      split; [intros c' E; apply H1; rewrite Ep; exact E|split; assumption].
    + destruct r; [apply cinv_log, H|exact H].
  - destruct r; [apply cinv_log, H|exact H].
Qed.

Lemma cinv_configure : forall h p r, cinv h -> cinv (fst (configure h p r)).
Proof. intros h p r H. apply cinv_send. exact H. Qed.

Lemma Forall_lt_S : forall {A} (f : A -> nat) n l,
  Forall (fun x => f x < n) l -> Forall (fun x => f x < S n) l.
Proof. intros A f n l H. eapply Forall_impl; [|exact H]. intros a Ha. simpl in Ha. lia. Qed.

Lemma cinv_spawn : forall h w, cinv h -> cinv (fst (spawnProcess h w)).
Proof.
  intros h w (H1 & H2 & H3). unfold cinv, spawnProcess, set_fields. cbn [fst process closed waiting next_child].
  split; [|split].
  - intros c Hc. inversion Hc. lia.
  - apply (Forall_lt_S (fun x => x)), H2.
  - apply Forall_app; split; [apply (Forall_lt_S fst), H3|constructor; [simpl; lia|constructor]].
Qed.

Lemma cinv_set : forall h h',
  process h' = process h -> closed h' = closed h -> waiting h' = waiting h ->
  next_child h' = next_child h -> cinv h -> cinv h'.
Proof. intros h h' E1 E2 E3 E4 H. unfold cinv. rewrite E1, E2, E3, E4. exact H. Qed.

Lemma cinv_remove_waiter : forall h c, cinv h -> cinv (with_waiting h (remove_waiter c (waiting h))).
Proof.
  intros h c (H1 & H2 & H3). split; [exact H1|split; [exact H2|]].
  cbn [with_waiting set_fields waiting next_child]. unfold remove_waiter.
  rewrite Forall_forall in *. intros x Hx. apply filter_In in Hx as [Hx _]. apply H3, Hx.
Qed.

Lemma cinv_on_exit : forall h c code, cinv h -> cinv (fst (on_exit h c code)).
Proof.
  intros h c code H. unfold on_exit.
  destruct (negb (mem c (live h))); [exact H|].
  match goal with |- context [set_fields h ?a ?b ?d ?e ?f ?g [] ?i ?j ?k ?l ?m] =>
    set (h1 := set_fields h a b d e f g [] i j k l m) end.
  assert (H1 : cinv h1) by exact H. clearbody h1.
  match goal with |- context [Host.seq ?P (fun h4 => log_all h4 ?ms)] => set (policy := P) end.
  assert (Hp : cinv (fst policy)).
  { subst policy. destruct (negb (stopped h1) && _).
    - rewrite fst_seq. apply cinv_log. exact H1.
    - destruct (negb (stopped h1) && _); [rewrite fst_seq; apply cinv_log|]; exact H1. }
  clearbody policy. destruct policy as [h4 e4].
  unfold Host.seq. pose proof (cinv_log_all (map (fun _ => restart_failed
      ("Plugin process exited with code " ++ code_str code)) (filter pe_replay (pending h))) h4 Hp) as Hl.
  destruct (log_all h4 _) as [h5 e5]. exact Hl.
Qed.

Lemma cinv_step : forall h ev, cinv h -> cinv (fst (step h ev)).
Proof.
  intros h ev H. destruct ev; cbn [step].
  - apply cinv_spawn. exact H.
  - destruct H as (H1 & H2 & H3). unfold stop, cinv, set_fields.
    destruct (process h) as [c|] eqn:Ep; cbn [fst process closed waiting next_child];
      (split; [discriminate|split; [|exact H3]]); [|exact H2].
    apply Forall_app; split; [exact H2|constructor; [apply H1; reflexivity|constructor]].
  - apply cinv_configure, H.
  - apply cinv_send, H.
  - unfold on_stdout_line.
    destruct (negb _ || _); [exact H|].
    destruct parsed as [resp|]; [|apply cinv_log, H].
    destruct (get resp "id") as [id|]; [|apply cinv_log, H].
    destruct (find_pending id (pending h)) as [e|]; [|exact H].
    assert (Hw : cinv (with_pending h (drop_pending (pe_id e) (pending h)))) by exact H.
    assert (Hr : forall h1 e m, cinv h1 -> cinv (fst (reject_entry h1 e m))).
    { intros h1 e1 m H1. unfold reject_entry. rewrite fst_seq. cbn [fst].
      destruct (pe_replay e1); [apply cinv_log|]; exact H1. }
    destruct (get resp "error") as [err|]; [|apply cinv_log, Hw].
    destruct (truthy err).
    + destruct (get err "message") as [[]|]; try apply Hr, Hw; apply cinv_log, Hw.
    + destruct (get resp "result"); [exact Hw|apply cinv_log, Hw].
  - unfold on_stderr_line. destruct (negb _ || _); [exact H|].
    rewrite fst_seq. apply (cinv_log h line) in H. revert H. generalize (fst (log h line)).
    intros h1 H.
    destruct (find_waiter child (waiting h1)) as [[]|]; [apply cinv_remove_waiter, H| |exact H].
    destruct (lastConfigureParams _); [apply cinv_configure|]; apply cinv_remove_waiter, H.
  - apply cinv_on_exit, H.
  - unfold on_ready_timeout. destruct (find_waiter _ _) as [[]|];
      [apply cinv_remove_waiter, H|apply cinv_log, cinv_remove_waiter, H|exact H].
  - unfold on_restart_timer. destruct (restart_timers h); [exact H|].
    apply cinv_spawn. exact H.
  - unfold on_request_timeout. destruct (find _ _) as [e|]; [|exact H].
    unfold reject_entry. rewrite fst_seq. cbn [fst]. destruct (pe_replay e); [apply cinv_log|]; exact H.
Qed.

Lemma cinv_run : forall evs h, cinv h -> cinv (fst (run h evs)).
Proof.
  induction evs as [|ev evs IH]; intros h H; [exact H|].
  cbn [run]. rewrite fst_seq. apply IH, cinv_step, H.
Qed.

End HostReadinessProofs.

Module HostReplayProofs.
Import Js Host HostProofs HostExtraProofs HostReadinessProofs.

(** The parameters of the last [configure()] call among the events, if any. *)
Fixpoint last_configure (evs : list Event) : option ConfigureParams :=
  match evs with
  | [] => None
  | Configure p :: evs' =>
      match last_configure evs' with Some q => Some q | None => Some p end
  | _ :: evs' => last_configure evs'
  end.

Lemma lcp_log_all : forall ms h, lastConfigureParams (fst (log_all h ms)) = lastConfigureParams h.
Proof.
  induction ms as [|m ms IH]; intros h; [reflexivity|].
  cbn [log_all]. rewrite fst_seq, IH. reflexivity.
Qed.

Lemma lcp_send : forall h m p r, lastConfigureParams (fst (send h m p r)) = lastConfigureParams h.
Proof.
  intros h m p r. unfold send.
  destruct (process h) as [c|]; [destruct (mem c (live h) && negb (mem c (stdin_ended h)))|];
    destruct r; reflexivity.
Qed.

Lemma lcp_configure : forall h p r, lastConfigureParams (fst (configure h p r)) = Some p.
Proof. intros h p r. unfold configure. rewrite lcp_send. reflexivity. Qed.

Lemma lcp_reject_entry : forall h e m,
  lastConfigureParams (fst (reject_entry h e m)) = lastConfigureParams h.
Proof. intros h e m. unfold reject_entry. rewrite fst_seq. destruct (pe_replay e); reflexivity. Qed.

Lemma lcp_on_stdout_line : forall h c line parsed,
  lastConfigureParams (fst (on_stdout_line h c line parsed)) = lastConfigureParams h.
Proof.
  intros h c line parsed. unfold on_stdout_line.
  destruct (negb (c <? next_child h)%nat || mem c (closed h)); [reflexivity|].
  destruct parsed as [resp|]; [|reflexivity].
  destruct (get resp "id") as [id|]; [|reflexivity].
  destruct (find_pending id (pending h)) as [e|]; [|reflexivity].
  destruct (get resp "error") as [err|]; [|reflexivity].
  destruct (truthy err).
  - destruct (get err "message") as [[]|]; try (rewrite lcp_reject_entry); reflexivity.
  - destruct (get resp "result"); reflexivity.
Qed.

Lemma lcp_on_stderr_line : forall h c line,
  lastConfigureParams (fst (on_stderr_line h c line)) = lastConfigureParams h.
Proof.
  intros h c line. unfold on_stderr_line.
  destruct (negb (c <? next_child h)%nat || mem c (closed h)); [reflexivity|].
  rewrite fst_seq. change (lastConfigureParams h) with (lastConfigureParams (fst (log h line))).
  generalize (fst (log h line)). intros h1.
  destruct (find_waiter c (waiting h1)) as [[]|]; try reflexivity.
  destruct (lastConfigureParams (with_waiting h1 (remove_waiter c (waiting h1)))) as [p|] eqn:E;
    [|reflexivity].
  rewrite lcp_configure. exact (eq_sym E).
Qed.

Lemma lcp_on_exit : forall h c code,
  lastConfigureParams (fst (on_exit h c code)) = lastConfigureParams h.
Proof.
  intros h c code. unfold on_exit.
  destruct (negb (mem c (live h))); [reflexivity|].
  match goal with |- context [let '(_, _) := ?X in _] => destruct X as [h5 e5] eqn:E5 end.
  cbn [fst]. change h5 with (fst (h5, e5)). rewrite <- E5, fst_seq, lcp_log_all.
  destruct (_ && _); [rewrite fst_seq; reflexivity|].
  destruct (_ && _); [rewrite fst_seq|]; reflexivity.
Qed.

Lemma lcp_step : forall h ev,
  lastConfigureParams (fst (step h ev)) =
  match ev with Configure p => Some p | _ => lastConfigureParams h end.
Proof.
  intros h []; cbn [step].
  - reflexivity.
  - unfold stop. destruct (process h); reflexivity.
  - apply lcp_configure.
  - apply lcp_send.
  - apply lcp_on_stdout_line.
  - apply lcp_on_stderr_line.
  - apply lcp_on_exit.
  - unfold on_ready_timeout. destruct (find_waiter _ _) as [[]|]; reflexivity.
  - unfold on_restart_timer. destruct (restart_timers h); reflexivity.
  - unfold on_request_timeout. destruct (find _ (pending h)); [rewrite lcp_reject_entry|]; reflexivity.
Qed.

(** The stored parameters are those of the last [configure()] call: the
    replay of a restart stores again what was stored. *)
Lemma lcp_run : forall evs h,
  lastConfigureParams (fst (run h evs)) =
  match last_configure evs with Some p => Some p | None => lastConfigureParams h end.
Proof.
  induction evs as [|ev evs IH]; intros h; [reflexivity|].
  cbn [run]. rewrite fst_seq, IH, lcp_step.
  destruct ev; cbn [last_configure]; destruct (last_configure evs); reflexivity.
Qed.

(** C5: after [configure(p)] (the last call of it), an automatic respawn
    whose fresh child signals readiness (its first stderr line) while it is
    the supervisor's current, running child makes the supervisor at once
    write exactly one request to that child: [configure] with exactly the
    parameters [p], under the next request id; [p] stays stored. *)
Theorem restart_replays_configure : forall o evs c line p,
  let h := fst (run (init o) evs) in
  last_configure evs = Some p ->
  find_waiter c (waiting h) = Some FromRestart ->
  process h = Some c -> mem c (live h) = true -> mem c (stdin_ended h) = false ->
  mem c (closed h) = false ->
  filter (is_to_child c) (snd (step h (StderrLine c line))) =
    [ToChild c {| rq_method := "configure"; rq_params := PConfigure p; rq_id := nextId h |}]
  /\ lastConfigureParams (fst (step h (StderrLine c line))) = Some p.
Proof.
  intros o evs c line p h Hlast Hw Hp Hl He Hc.
  assert (Hcfg : lastConfigureParams h = Some p) by (subst h; rewrite lcp_run, Hlast; reflexivity).
  assert (Hn : c < next_child h).
  { destruct (cinv_run evs (init o)) as (Hi & _); [split; [discriminate|split; constructor]|].
    exact (Hi c Hp). }
  clearbody h. simpl step. unfold on_stderr_line.
  apply Nat.ltb_lt in Hn. rewrite Hn, Hc. simpl.
  rewrite Hw. simpl. rewrite Hcfg. unfold configure, send. simpl.
  rewrite Hp, Hl, He. simpl. split; [|reflexivity].
  destruct (has_onLog (options h)); simpl; rewrite Nat.eqb_refl; reflexivity.
Qed.

Lemma restart_replays_configure_witness :
  filter (is_to_child 1) (snd (step after_crash (StderrLine 1 "[plugin] ready"))) =
    [ToChild 1 {| rq_method := "configure"; rq_params := PConfigure cfg42;
                  rq_id := nextId after_crash |}]
  /\ lastConfigureParams (fst (step after_crash (StderrLine 1 "[plugin] ready"))) = Some cfg42.
Proof.
  exact (restart_replays_configure opts
           [Start; StderrLine 0 "[plugin] ready"; Configure cfg42; Exit 0 (Some 1%Z); RestartTimer]
           1 "[plugin] ready" cfg42 eq_refl eq_refl eq_refl eq_refl eq_refl eq_refl).
Defined.

End HostReplayProofs.
